(** * Magnetic simulator: physics core

    A shallow embedding of the physics and particle-lifecycle code of the
    magnetic field simulator (Physics.js, Magnet.js, the IronParticle class,
    the MagneticSimulationApp class and the Utils helpers), with the
    properties of its specification stated over it.

    Numbers.  The simulation is modelled over the real numbers: [Math.sqrt],
    [Math.cos], [Math.exp], [Math.abs], [Math.min] and [Math.max] are the
    corresponding functions of the real-number library, [Math.pow (a, 2)] is
    [a ^ 2], and [Infinity] (the initial value of a running minimum, the
    default maximal age) is [None] in an [option R].  Rounding, NaN and
    overflow are outside that model, and a division is meant by a non-zero
    number.  What is stated over it is what rounding does not disturb: the
    branch a comparison takes, a sign, a bound with a margin, the shape of
    a result.  What holds in exact arithmetic only is settled in module
    [F64], which has the force and the collision functions over binary64
    numbers.

    Objects.  A JavaScript object is a record; a method that mutates
    [this] returns the updated record; arrays are lists. *)

From Stdlib Require Import Floats.
From Stdlib Require Import Reals Lra Psatz List String Bool Arith Lia ZArith.
Import ListNotations.

Set Warnings "-inexact-float".
Local Open Scope R_scope.

(** ** THREE.Vector3 *)

Module Vector3.

(** Modelled from the spec: the vector library (THREE.Vector3 of
    three.js) is external to the repository and absent from src/; the
    spec lists its operations (add, scale, normalize, distance, dot) as
    assumed available.  Each method below follows the three.js method of
    the same name; [normalize] is [divideScalar (length () || 1)] and
    [divideScalar s] is [multiplyScalar (1 / s)]. *)
Record t : Type := mk { x : R; y : R; z : R }.

Definition zero : t := mk 0 0 0.

Definition clone (v : t) : t := v.

Definition add (a b : t) : t := mk (x a + x b) (y a + y b) (z a + z b).

Definition sub (a b : t) : t := mk (x a - x b) (y a - y b) (z a - z b).

(** [new THREE.Vector3().subVectors(a, b)] *)
Definition subVectors (a b : t) : t := sub a b.

Definition multiplyScalar (v : t) (s : R) : t :=
  mk (x v * s) (y v * s) (z v * s).

Definition divideScalar (v : t) (s : R) : t := multiplyScalar v (1 / s).

Definition dot (a b : t) : R := x a * x b + y a * y b + z a * z b.

Definition lengthSq (v : t) : R := x v * x v + y v * y v + z v * z v.

Definition length (v : t) : R := sqrt (x v * x v + y v * y v + z v * z v).

Definition normalize (v : t) : t :=
  divideScalar v (if Req_dec_T (length v) 0 then 1 else length v).

Definition set_x (v : t) (a : R) : t := mk a (y v) (z v).
Definition set_y (v : t) (a : R) : t := mk (x v) a (z v).
Definition set_z (v : t) (a : R) : t := mk (x v) (y v) a.

End Vector3.

Abbreviation vec := Vector3.t.

(** ** Utils *)

Module Utils.

Definition distance (v1 v2 : vec) : R :=
  sqrt ((Vector3.x v2 - Vector3.x v1) ^ 2
        + (Vector3.y v2 - Vector3.y v1) ^ 2
        + (Vector3.z v2 - Vector3.z v1) ^ 2).

Definition clamp (value min max : R) : R := Rmin (Rmax value min) max.

Definition map (value inMin inMax outMin outMax : R) : R :=
  (value - inMin) * (outMax - outMin) / (inMax - inMin) + outMin.

Definition lerp (a b t : R) : R := a + (b - a) * t.

(** [random (min, max)], for the value [draw] that [Math.random ()]
    returns. *)
Definition random (draw min max : R) : R := draw * (max - min) + min.

(** [randomInt (min, max)] for integer bounds; [Math.floor] is the integer
    part. *)
Definition randomInt (draw : R) (min max : Z) : Z :=
  (Int_part (draw * IZR (max - min + 1)) + min)%Z.

Definition normalize (vector : vec) : vec :=
  let length := Vector3.length vector in
  if Req_dec_T length 0 then Vector3.mk 0 0 0
  else Vector3.divideScalar (Vector3.clone vector) length.

Definition degToRad (degrees : R) : R := degrees * PI / 180.

Definition radToDeg (radians : R) : R := radians * 180 / PI.

(** The 32-bit integer a bitwise operator makes of an integer operand. *)
Definition toInt32 (n : Z) : Z := ((n + 2 ^ 31) mod 2 ^ 32 - 2 ^ 31)%Z.

(** [a << count] *)
Definition shiftLeft (a count : Z) : Z :=
  toInt32 (Z.shiftl (toInt32 a) (Z.land count 31)).

(** [a | b] *)
Definition bitOr (a b : Z) : Z := Z.lor (toInt32 a) (toInt32 b).

(** [rgbToHex (r, g, b)], for integer channel values. *)
Definition rgbToHex (r g b : Z) : Z :=
  bitOr (bitOr (shiftLeft r 16) (shiftLeft g 8)) b.

End Utils.

(** ** Completions

    A constructor call [new C (...)] either completes normally with the new
    object or throws.  [Throw] carries the name of the thrown condition. *)

Inductive completion (A : Type) : Type :=
| Normal (a : A)
| Throw (name : string).

Arguments Normal {A} a.
Arguments Throw {A} name.

Definition bind {A B : Type} (c : completion A) (k : A -> completion B)
  : completion B :=
  match c with
  | Normal a => k a
  | Throw name => Throw name
  end.

Notation "x <- c ;; k" := (bind c (fun x => k))
  (at level 61, c at next level, right associativity).

(** [options.field] after [{ ...defaults, ...options }]: the caller's value
    when it gives one, the default otherwise. *)
Definition spread {A : Type} (default : A) (given : option A) : A :=
  match given with
  | Some a => a
  | None => default
  end.

(** ** Arrays *)

Module Array.

Definition push {A : Type} (l : list A) (a : A) : list A := l ++ [a].

(** [pop] removes and returns the last element. *)
Definition pop {A : Type} (l : list A) : option (A * list A) :=
  match rev l with
  | [] => None
  | a :: r => Some (a, rev r)
  end.

(** [l.splice (index, 1)] *)
Definition splice1 {A : Type} (l : list A) (index : nat) : list A :=
  firstn index l ++ skipn (S index) l.

(** [l[index] = a], for an index inside the array. *)
Fixpoint set {A : Type} (l : list A) (index : nat) (a : A) : list A :=
  match l, index with
  | [], _ => []
  | _ :: r, O => a :: r
  | b :: r, S i => b :: set r i a
  end.

End Array.

(** ** Magnet (entities/Magnet.js) *)

Module Magnet.

Module Options.

(** [options.size] and [options.colors], when the caller gives them. *)
Record size_t : Type := mkSize { width : R; height : R; depth : R }.

Record colors_t : Type := mkColors { north : Z; south : Z }.

(** A property of the caller's options object: left out, given as [null]
    or [undefined], or given an object. *)
Inductive property (A : Type) : Type :=
| Absent
| Nullish
| Given (a : A).

Arguments Absent {A}.
Arguments Nullish {A}.
Arguments Given {A} a.

Record t : Type := make {
  strength : option R;
  size : property size_t;
  colors : property colors_t
}.

(** [{ strength: s }] when [strength] is [Some s], [{}] otherwise. *)
Definition mk (strength : option R) : t := make strength Absent Absent.

Definition empty : t := mk None.

Definition defaultSize : size_t := mkSize 0.3 1.0 0.3.

Definition defaultColors : colors_t := mkColors 0xff4444 0x4444ff.

(** The property after [{ ...defaults, ...options }]; [None] is [null] or
    [undefined]. *)
Definition merged {A : Type} (default : A) (given : property A) : option A :=
  match given with
  | Absent => Some default
  | Nullish => None
  | Given a => Some a
  end.

End Options.

(** The shape [createMesh] builds for the magnet's group. *)
Inductive mesh : Type := BarMesh | RingMesh | HorseshoeMesh.

Record t : Type := mk {
  type : string;
  position : vec;
  strength : R;
  isDragging : bool;
  isHovered : bool;
  group : mesh
}.

(** [createBarMagnet] destructures [this.options.size] and reads
    [this.options.colors.north]; either throws a TypeError on [null] or
    [undefined]. *)
Definition createBarMagnet (size : option Options.size_t)
  (colors : option Options.colors_t) : completion mesh :=
  match size, colors with
  | Some _, Some _ => Normal BarMesh
  | _, _ => Throw "TypeError"
  end.

(** [createRingMagnet] and [createHorseshoeMagnet] have their dimensions
    as constants and read [this.options.colors.north] only. *)
Definition createRingMagnet (colors : option Options.colors_t)
  : completion mesh :=
  match colors with
  | Some _ => Normal RingMesh
  | None => Throw "TypeError"
  end.

Definition createHorseshoeMagnet (colors : option Options.colors_t)
  : completion mesh :=
  match colors with
  | Some _ => Normal HorseshoeMesh
  | None => Throw "TypeError"
  end.

Definition createMesh (type : string) (size : option Options.size_t)
  (colors : option Options.colors_t) : completion mesh :=
  if String.eqb type "bar" then createBarMagnet size colors
  else if String.eqb type "ring" then createRingMagnet colors
  else if String.eqb type "horseshoe" then createHorseshoeMagnet colors
  else createBarMagnet size colors.

(** The constructor, for a [position] that is a vector ([Some]) or [null]
    or [undefined] ([None]): [position.clone ()] throws a TypeError on the
    latter. *)
Definition constructor (position : option vec) (type : string)
  (options : Options.t) : completion t :=
  let size := Options.merged Options.defaultSize (Options.size options) in
  let colors :=
    Options.merged Options.defaultColors (Options.colors options) in
  match position with
  | None => Throw "TypeError"
  | Some position =>
      group <- createMesh type size colors ;;
      Normal {| type := type;
                position := Vector3.clone position;
                strength := spread 1.0 (Options.strength options);
                isDragging := false;
                isHovered := false;
                group := group |}
  end.

(** [new Magnet (position, type, options)] on a vector *)
Definition new (position : vec) (type : string) (options : Options.t)
  : completion t :=
  constructor (Some position) type options.

(** [update] rescales and turns the scene group only; position, strength
    and type are left as they are. *)
Definition update (m : t) (deltaTime : R) : t := m.

Definition setStrength (m : t) (s : R) : t :=
  {| type := type m;
     position := position m;
     strength := Utils.clamp s 0.1 2.0;
     isDragging := isDragging m;
     isHovered := isHovered m;
     group := group m |}.

Definition teleportTo (m : t) (newPosition : vec) : t :=
  {| type := type m;
     position := newPosition;
     strength := strength m;
     isDragging := isDragging m;
     isHovered := isHovered m;
     group := group m |}.

End Magnet.

(** ** IronParticle *)

Module IronParticle.

Module Options.
Record t : Type := mk { radius : option R; mass : option R }.
Definition empty : t := mk None None.
End Options.

Record t : Type := mk {
  options : Options.t;
  position : vec;
  velocity : vec;
  acceleration : vec;
  mass : R;
  radius : R;
  age : R;
  maxAge : option R;          (* [None] is [Infinity] *)
  isDead : bool;
  isAttractedToMagnet : bool;
  currentMagnet : option Magnet.t;
  stuckToGround : bool;
  needsUpdate : bool
}.

Definition with_position (p : t) (v : vec) : t :=
  mk (options p) v (velocity p) (acceleration p) (mass p) (radius p)
     (age p) (maxAge p) (isDead p) (isAttractedToMagnet p)
     (currentMagnet p) (stuckToGround p) (needsUpdate p).

Definition with_velocity (p : t) (v : vec) : t :=
  mk (options p) (position p) v (acceleration p) (mass p) (radius p)
     (age p) (maxAge p) (isDead p) (isAttractedToMagnet p)
     (currentMagnet p) (stuckToGround p) (needsUpdate p).

Definition with_age (p : t) (a : R) : t :=
  mk (options p) (position p) (velocity p) (acceleration p) (mass p)
     (radius p) a (maxAge p) (isDead p) (isAttractedToMagnet p)
     (currentMagnet p) (stuckToGround p) (needsUpdate p).

Definition with_isDead (p : t) (b : bool) : t :=
  mk (options p) (position p) (velocity p) (acceleration p) (mass p)
     (radius p) (age p) (maxAge p) b (isAttractedToMagnet p)
     (currentMagnet p) (stuckToGround p) (needsUpdate p).

Definition with_attraction (p : t) (b : bool) (m : option Magnet.t) : t :=
  mk (options p) (position p) (velocity p) (acceleration p) (mass p)
     (radius p) (age p) (maxAge p) (isDead p) b m (stuckToGround p)
     (needsUpdate p).

Definition with_stuckToGround (p : t) (b : bool) : t :=
  mk (options p) (position p) (velocity p) (acceleration p) (mass p)
     (radius p) (age p) (maxAge p) (isDead p) (isAttractedToMagnet p)
     (currentMagnet p) b (needsUpdate p).

Definition with_needsUpdate (p : t) (b : bool) : t :=
  mk (options p) (position p) (velocity p) (acceleration p) (mass p)
     (radius p) (age p) (maxAge p) (isDead p) (isAttractedToMagnet p)
     (currentMagnet p) (stuckToGround p) b.

(** The constructor, for a [position] that is a vector ([Some]) or [null]
    or [undefined] ([None]): [position.clone ()] throws a TypeError on the
    latter.  Nothing else in it, [createMesh] included, can throw. *)
Definition constructor (position : option vec) (opts : Options.t)
  : completion t :=
  match position with
  | None => Throw "TypeError"
  | Some position =>
      Normal {| options :=
                  Options.mk (Some (spread 0.02 (Options.radius opts)))
                             (Some (spread 0.1 (Options.mass opts)));
                position := Vector3.clone position;
                velocity := Vector3.zero;
                acceleration := Vector3.zero;
                mass := spread 0.1 (Options.mass opts);
                radius := spread 0.02 (Options.radius opts);
                age := 0;
                maxAge := None;
                isDead := false;
                isAttractedToMagnet := false;
                currentMagnet := None;
                stuckToGround := false;
                needsUpdate := true |}
  end.

(** [new IronParticle (position, options)] on a vector *)
Definition new (position : vec) (opts : Options.t) : completion t :=
  constructor (Some position) opts.

Definition kill (p : t) : t := with_isDead p true.

(** The running minimum of [checkMagnetInteraction]: [None] before any
    magnet was seen ([closestDistance = Infinity], [closestMagnet = null]). *)
Definition closer (this : t) (closest : option (R * Magnet.t))
  (magnet : Magnet.t) : option (R * Magnet.t) :=
  let distance := Utils.distance (position this) (Magnet.position magnet) in
  match closest with
  | None => Some (distance, magnet)
  | Some (closestDistance, _) =>
      if Rlt_dec distance closestDistance then Some (distance, magnet)
      else closest
  end.

Definition checkMagnetInteraction (this : t) (magnets : list Magnet.t) : t :=
  match fold_left (closer this) magnets None with
  | Some (closestDistance, closestMagnet) =>
      if Rlt_dec closestDistance 0.5 then
        let this := with_attraction this true (Some closestMagnet) in
        if Rlt_dec closestDistance 0.1 then
          with_velocity this (Vector3.multiplyScalar (velocity this) 0.1)
        else this
      else with_attraction this false None
  | None => with_attraction this false None
  end.

Definition checkGroundStick (this : t) : t :=
  if Rle_dec (Vector3.y (position this)) 0.01 then
    if Rlt_dec (Vector3.length (velocity this)) 0.1 then
      let this := with_stuckToGround this true in
      with_velocity this (Vector3.multiplyScalar (velocity this) 0.5)
    else with_stuckToGround this false
  else with_stuckToGround this false.

(** [age > maxAge], false when [maxAge] is [Infinity]. *)
Definition expired (this : t) : bool :=
  match maxAge this with
  | None => false
  | Some m => if Rgt_dec (age this) m then true else false
  end.

(** [update (deltaTime, magnets, physics)]; of the physics engine passed
    in, the method calls [updateParticle] only.  [updateMesh] copies the
    position to the mesh and changes nothing of the particle. *)
Definition update (this : t) (deltaTime : R) (magnets : list Magnet.t)
  (physics_updateParticle : t -> list Magnet.t -> R -> t) : t :=
  if isDead this then this
  else
    let this := with_age this (age this + deltaTime) in
    if expired this then kill this
    else
      let this := physics_updateParticle this magnets deltaTime in
      let this := checkMagnetInteraction this magnets in
      let this := checkGroundStick this in
      with_needsUpdate this false.

Definition teleportTo (this : t) (newPosition : vec) : t :=
  with_velocity (with_position this newPosition) Vector3.zero.

(** [isOutOfBounds (boundary = 15)] *)
Definition isOutOfBounds (this : t) : bool :=
  let boundary := 15 in
  if Rgt_dec (Rabs (Vector3.x (position this))) boundary then true
  else if Rgt_dec (Rabs (Vector3.z (position this))) boundary then true
  else if Rlt_dec (Vector3.y (position this)) (-5) then true
  else if Rgt_dec (Vector3.y (position this)) boundary then true
  else false.

Definition with_acceleration (p : t) (a : vec) : t :=
  mk (options p) (position p) (velocity p) a (mass p) (radius p)
     (age p) (maxAge p) (isDead p) (isAttractedToMagnet p)
     (currentMagnet p) (stuckToGround p) (needsUpdate p).

Definition applyForce (this : t) (force : vec) : t :=
  let this :=
    with_acceleration this
      (Vector3.add (acceleration this)
         (Vector3.divideScalar (Vector3.clone force) (mass this))) in
  with_needsUpdate this true.

Definition applyImpulse (this : t) (impulse : vec) : t :=
  let velocityChange :=
    Vector3.divideScalar (Vector3.clone impulse) (mass this) in
  let this := with_velocity this (Vector3.add (velocity this) velocityChange) in
  with_needsUpdate this true.

End IronParticle.

Abbreviation particle := IronParticle.t.

(** ** Physics (core/Physics.js) *)

Module Physics.

Definition GRAVITY : R := -9.81.
Definition DAMPING : R := 0.98.
Definition AIR_RESISTANCE : R := 0.99.
Definition MAGNETIC_FORCE_SCALE : R := 50.
Definition MIN_FORCE : R := 0.001.
Definition MAX_FORCE : R := 10.
Definition timeStep : R := 1 / 60.
Definition maxVelocity : R := 20.
Definition restitution : R := 0.3.

Definition calculateBarMagnetField (magnetPos particlePos : vec) : R :=
  let magnetDirection := Vector3.mk 0 1 0 in
  let toParticle :=
    Vector3.normalize (Vector3.subVectors particlePos magnetPos) in
  let dotProduct := Vector3.dot toParticle magnetDirection in
  Rabs (cos (dotProduct * PI)) + 0.3.

Definition calculateRingMagnetField (magnetPos particlePos : vec) : R :=
  let magnetAxis := Vector3.mk 0 1 0 in
  let toParticle := Vector3.subVectors particlePos magnetPos in
  let axisDistance := Rabs (Vector3.dot toParticle magnetAxis) in
  let radialDistance :=
    sqrt (Vector3.lengthSq toParticle - axisDistance * axisDistance) in
  let ringEffect := exp (- (radialDistance - 1) ^ 2 * 2) in
  ringEffect + 0.2.

Definition calculateMagneticForce (sourcePos targetPos : vec)
  (magnetStrength : R) (magnetType : string) : vec :=
  let distance := Utils.distance sourcePos targetPos in
  if Rlt_dec distance 0.1 then Vector3.mk 0 0 0
  else
    let forceMagnitude :=
      (magnetStrength * MAGNETIC_FORCE_SCALE) / distance ^ 2 in
    let forceMagnitude :=
      if String.eqb magnetType "bar" then
        forceMagnitude * calculateBarMagnetField sourcePos targetPos
      else if String.eqb magnetType "ring" then
        forceMagnitude * calculateRingMagnetField sourcePos targetPos
      else forceMagnitude in
    let direction :=
      Vector3.normalize (Vector3.subVectors sourcePos targetPos) in
    let forceMagnitude := Utils.clamp forceMagnitude MIN_FORCE MAX_FORCE in
    Vector3.multiplyScalar direction forceMagnitude.

Definition calculateGravity (mass : R) : vec :=
  Vector3.mk 0 (GRAVITY * mass) 0.

Definition calculateAirResistance (velocity : vec) : vec :=
  Vector3.multiplyScalar (Vector3.clone velocity)
    (- AIR_RESISTANCE * Vector3.length velocity).

Definition handleGroundCollision (p : particle) : particle :=
  let groundLevel := 0 in
  if Rle_dec (Vector3.y (IronParticle.position p)) groundLevel then
    let p :=
      IronParticle.with_position p
        (Vector3.set_y (IronParticle.position p) groundLevel) in
    let p :=
      if Rlt_dec (Vector3.y (IronParticle.velocity p)) 0 then
        IronParticle.with_velocity p
          (Vector3.set_y (IronParticle.velocity p)
             (- Vector3.y (IronParticle.velocity p) * restitution))
      else p in
    let p :=
      IronParticle.with_velocity p
        (Vector3.set_x (IronParticle.velocity p)
           (Vector3.x (IronParticle.velocity p) * 0.8)) in
    IronParticle.with_velocity p
      (Vector3.set_z (IronParticle.velocity p)
         (Vector3.z (IronParticle.velocity p) * 0.8))
  else p.

(** The force accumulated by [magnets.forEach] in [updateParticle]. *)
Definition addMagneticForce (p : particle) (totalForce : vec)
  (magnet : Magnet.t) : vec :=
  let magneticForce :=
    calculateMagneticForce (Magnet.position magnet)
      (IronParticle.position p) (Magnet.strength magnet)
      (Magnet.type magnet) in
  Vector3.add totalForce magneticForce.

Definition updateParticle (p : particle) (magnets : list Magnet.t)
  (deltaTime : R) : particle :=
  let totalForce := Vector3.mk 0 0 0 in
  let gravity := calculateGravity (IronParticle.mass p) in
  let totalForce := Vector3.add totalForce gravity in
  let totalForce := fold_left (addMagneticForce p) magnets totalForce in
  let airResistance := calculateAirResistance (IronParticle.velocity p) in
  let totalForce := Vector3.add totalForce airResistance in
  let acceleration := Vector3.divideScalar totalForce (IronParticle.mass p) in
  let p :=
    IronParticle.with_velocity p
      (Vector3.add (IronParticle.velocity p)
         (Vector3.multiplyScalar acceleration deltaTime)) in
  let p :=
    if Rgt_dec (Vector3.length (IronParticle.velocity p)) maxVelocity then
      IronParticle.with_velocity p
        (Vector3.multiplyScalar
           (Vector3.normalize (IronParticle.velocity p)) maxVelocity)
    else p in
  let displacement :=
    Vector3.multiplyScalar (Vector3.clone (IronParticle.velocity p))
      deltaTime in
  let p :=
    IronParticle.with_position p
      (Vector3.add (IronParticle.position p) displacement) in
  let p := handleGroundCollision p in
  IronParticle.with_velocity p
    (Vector3.multiplyScalar (IronParticle.velocity p) DAMPING).

Definition handleParticleCollision (particle1 particle2 : particle)
  : particle * particle :=
  let distance :=
    Utils.distance (IronParticle.position particle1)
      (IronParticle.position particle2) in
  let minDistance :=
    IronParticle.radius particle1 + IronParticle.radius particle2 in
  if Rlt_dec distance minDistance then
    if Rgt_dec distance 0 then
      let collisionDirection :=
        Vector3.normalize
          (Vector3.subVectors (IronParticle.position particle2)
             (IronParticle.position particle1)) in
      let overlap := minDistance - distance in
      let separation :=
        Vector3.multiplyScalar (Vector3.clone collisionDirection)
          (overlap * 0.5) in
      let particle1 :=
        IronParticle.with_position particle1
          (Vector3.sub (IronParticle.position particle1) separation) in
      let particle2 :=
        IronParticle.with_position particle2
          (Vector3.add (IronParticle.position particle2) separation) in
      let relativeVelocity :=
        Vector3.subVectors (IronParticle.velocity particle1)
          (IronParticle.velocity particle2) in
      let velocityAlongNormal :=
        Vector3.dot relativeVelocity collisionDirection in
      if Rgt_dec velocityAlongNormal 0 then (particle1, particle2)
      else
        let impulse :=
          2 * velocityAlongNormal
          / (IronParticle.mass particle1 + IronParticle.mass particle2) in
        let v1 :=
          Vector3.sub (IronParticle.velocity particle1)
            (Vector3.multiplyScalar (Vector3.clone collisionDirection)
               (impulse * IronParticle.mass particle2)) in
        let v2 :=
          Vector3.add (IronParticle.velocity particle2)
            (Vector3.multiplyScalar (Vector3.clone collisionDirection)
               (impulse * IronParticle.mass particle1)) in
        (IronParticle.with_velocity particle1 v1,
         IronParticle.with_velocity particle2 v2)
    else (particle1, particle2)
  else (particle1, particle2).

(** The inner loop of [calculateFieldLines]: at most [steps] further steps
    from [currentPos], pushing each new point on [line]. *)
Fixpoint traceFieldLine (steps : nat) (magnetPos : vec) (magnetStrength : R)
  (magnetType : string) (currentPos : vec) (line : list vec) : list vec :=
  match steps with
  | O => line
  | S steps =>
      let stepSize := 0.1 in
      let force :=
        calculateMagneticForce magnetPos currentPos magnetStrength
          magnetType in
      if Rlt_dec (Vector3.length force) 0.001 then line
      else
        let direction := Vector3.normalize force in
        let currentPos :=
          Vector3.add currentPos (Vector3.multiplyScalar direction stepSize) in
        let line := line ++ [Vector3.clone currentPos] in
        if Rgt_dec (Utils.distance magnetPos currentPos) 5 then line
        else
          traceFieldLine steps magnetPos magnetStrength magnetType
            currentPos line
  end.

Definition fieldLineStart (magnetPos : vec) (i : nat) : vec :=
  let numLines := 8 in
  let angle := (INR i / numLines) * PI * 2 in
  let startRadius := 0.2 in
  Vector3.mk (Vector3.x magnetPos + cos angle * startRadius)
    (Vector3.y magnetPos)
    (Vector3.z magnetPos + sin angle * startRadius).

Definition calculateFieldLines (magnetPos : vec) (magnetStrength : R)
  (magnetType : string) : list (list vec) :=
  let numLines := 8%nat in
  let maxSteps := 100%nat in
  List.map
    (fun i =>
       let startPos := fieldLineStart magnetPos i in
       traceFieldLine maxSteps magnetPos magnetStrength magnetType
         (Vector3.clone startPos) [Vector3.clone startPos])
    (seq 0 numLines).

End Physics.

(** ** MagneticSimulationApp *)

Module App.

Record t : Type := mk {
  particles : list particle;
  magnets : list Magnet.t;
  isRunning : bool;
  isPaused : bool;
  maxParticles : nat;
  particlePool : list particle
}.

(** The fields the constructor sets, before [init] runs. *)
Definition new : t :=
  {| particles := [];
     magnets := [];
     isRunning := false;
     isPaused := false;
     maxParticles := 1000;
     particlePool := [] |}.

Definition with_particles (app : t) (ps : list particle) : t :=
  mk ps (magnets app) (isRunning app) (isPaused app) (maxParticles app)
     (particlePool app).

Definition with_magnets (app : t) (ms : list Magnet.t) : t :=
  mk (particles app) ms (isRunning app) (isPaused app) (maxParticles app)
     (particlePool app).

Definition with_particlePool (app : t) (pool : list particle) : t :=
  mk (particles app) (magnets app) (isRunning app) (isPaused app)
     (maxParticles app) pool.

Definition addMagnet (app : t) (position : vec) (type : string)
  (options : Magnet.Options.t) : completion (t * Magnet.t) :=
  magnet <- Magnet.new position type options ;;
  Normal (with_magnets app (Array.push (magnets app) magnet), magnet).

Definition setupInitialScene (app : t) : completion t :=
  r <- addMagnet app (Vector3.mk 0 0.5 0) "bar"
         (Magnet.Options.mk (Some 1.0)) ;;
  r <- addMagnet (fst r) (Vector3.mk (-3) 0.3 0) "ring"
         (Magnet.Options.mk (Some 0.8)) ;;
  Normal (fst r).

Definition removeParticle (app : t) (index : nat) : t :=
  match nth_error (particles app) index with
  | None => app                      (* index >= this.particles.length *)
  | Some p =>
      let app := with_particles app (Array.splice1 (particles app) index) in
      if (List.length (particlePool app) <? 50)%nat then
        with_particlePool app (Array.push (particlePool app) p)
      else app
  end.

(** The scan of [removeOldestParticle] from index [i] on, over the
    particles [rest] not yet visited. *)
Fixpoint scanOldest (rest : list particle) (i oldestIndex : nat)
  (maxAge : R) : nat :=
  match rest with
  | [] => oldestIndex
  | p :: rest =>
      if Rgt_dec (IronParticle.age p) maxAge then
        scanOldest rest (S i) i (IronParticle.age p)
      else scanOldest rest (S i) oldestIndex maxAge
  end.

Definition removeOldestParticle (app : t) : t :=
  match particles app with
  | [] => app
  | p0 :: rest =>
      let oldestIndex := 0%nat in
      let maxAge := IronParticle.age p0 in
      removeParticle app (scanOldest rest 1 oldestIndex maxAge)
  end.

Definition addParticle (app : t) (position : vec)
  (options : IronParticle.Options.t) : completion (t * particle) :=
  let app :=
    if (maxParticles app <=? List.length (particles app))%nat then
      removeOldestParticle app
    else app in
  r <- match Array.pop (particlePool app) with
       | Some (p, pool) =>
           let p := IronParticle.with_position p position in
           let p := IronParticle.with_velocity p (Vector3.mk 0 0 0) in
           let p := IronParticle.with_isDead p false in
           let p := IronParticle.with_age p 0 in
           Normal (with_particlePool app pool, p)
       | None =>
           p <- IronParticle.new position options ;;
           Normal (app, p)
       end ;;
  let (app, p) := (r : t * particle) in
  Normal (with_particles app (Array.push (particles app) p), p).

Definition onMagnetStrengthChange (app : t) (strength : R) : t :=
  with_magnets app
    (List.map (fun magnet => Magnet.setStrength magnet strength)
       (magnets app)).

(** The body of the loop of [updateParticles] at index [i]. *)
Definition updateParticleAt (deltaTime : R) (app : t) (i : nat) : t :=
  match nth_error (particles app) i with
  | None => app
  | Some p =>
      let p :=
        IronParticle.update p deltaTime (magnets app)
          Physics.updateParticle in
      let app := with_particles app (Array.set (particles app) i p) in
      if IronParticle.isOutOfBounds p then removeParticle app i else app
  end.

(** [for (let i = n - 1; i >= 0; i--) body (i)] *)
Fixpoint downFrom (n : nat) (body : t -> nat -> t) (app : t) : t :=
  match n with
  | O => app
  | S i => downFrom i body (body app i)
  end.

Definition updateParticles (app : t) (deltaTime : R) : t :=
  downFrom (List.length (particles app)) (updateParticleAt deltaTime) app.

(** One call [this.physics.handleParticleCollision (this.particles[i],
    this.particles[j])]: both objects are updated in place. *)
Definition collide (ps : list particle) (i j : nat) : list particle :=
  match nth_error ps i, nth_error ps j with
  | Some p1, Some p2 =>
      let (p1, p2) := Physics.handleParticleCollision p1 p2 in
      Array.set (Array.set ps i p1) j p2
  | _, _ => ps
  end.

Definition handleParticleCollisions (app : t) : t :=
  let n := List.length (particles app) in
  with_particles app
    (fold_left
       (fun ps i =>
          fold_left (fun ps j => collide ps i j)
            (seq (i + 1) (n - (i + 1))) ps)
       (seq 0 (n - 1)) (particles app)).

Definition cleanupAt (app : t) (i : nat) : t :=
  match nth_error (particles app) i with
  | None => app
  | Some p => if IronParticle.isDead p then removeParticle app i else app
  end.

Definition cleanupDeadParticles (app : t) : t :=
  downFrom (List.length (particles app)) cleanupAt app.

Definition update (app : t) (deltaTime : R) : t :=
  let app :=
    with_magnets app
      (List.map (fun magnet => Magnet.update magnet deltaTime)
         (magnets app)) in
  let app := updateParticles app deltaTime in
  let app :=
    if (List.length (particles app) <? 100)%nat then
      handleParticleCollisions app
    else app in
  cleanupDeadParticles app.

Definition clearParticles (app : t) : t :=
  downFrom (List.length (particles app)) removeParticle app.

(** [array.forEach ((element, index) => ...)] that updates the elements. *)
Fixpoint forEachIndexed {A : Type} (f : A -> nat -> A) (index : nat)
  (l : list A) : list A :=
  match l with
  | [] => []
  | a :: l => f a index :: forEachIndexed f (S index) l
  end.

Definition reset (app : t) : t :=
  let app := clearParticles app in
  let app :=
    with_magnets app
      (forEachIndexed
         (fun magnet index =>
            match index with
            | 0%nat => Magnet.teleportTo magnet (Vector3.mk 0 0.5 0)
            | 1%nat => Magnet.teleportTo magnet (Vector3.mk (-3) 0.3 0)
            | _ => magnet
            end)
         0 (magnets app)) in
  onMagnetStrengthChange app 1.0.

(** [onIronParticleSpawn] for the event detail [{ position, count }];
    [draws] are the values the successive calls of [Math.random] return,
    three for each particle. *)
Fixpoint spawnLoop (count : nat) (draws : nat -> R) (next : nat)
  (position : vec) (app : t) : completion t :=
  match count with
  | O => Normal app
  | S count =>
      let spawnPos :=
        Vector3.add (Vector3.clone position)
          (Vector3.mk (Utils.random (draws next) (-0.1) 0.1)
             (Utils.random (draws (S next)) 0 0.2)
             (Utils.random (draws (S (S next))) (-0.1) 0.1)) in
      r <- addParticle app spawnPos IronParticle.Options.empty ;;
      spawnLoop count draws (S (S (S next))) position (fst r)
  end.

Definition onIronParticleSpawn (app : t) (position : vec) (count : nat)
  (draws : nat -> R) : completion t :=
  spawnLoop count draws 0 position app.

End App.

(** ** UIControls *)

Module UIControls.

(** The controller's own state; [app] is the application it was built
    with, passed to each handler and returned updated. *)
Record t : Type := mk { magnetStrength : R }.

Definition new : t := mk 1.0.

Definition onStrengthChange (ui : t) (app : App.t) (value : R)
  : t * App.t :=
  (mk value, App.onMagnetStrengthChange app value).

Definition setMagnetStrength (ui : t) (app : App.t) (value : R)
  : t * App.t :=
  let value := Utils.clamp value 0.1 2.0 in
  onStrengthChange ui app value.

Definition adjustMagnetStrength (ui : t) (app : App.t) (delta : R)
  : t * App.t :=
  let newValue := Utils.clamp (magnetStrength ui + delta) 0.1 2.0 in
  setMagnetStrength ui app newValue.

Definition resetUI (ui : t) (app : App.t) : t * App.t :=
  setMagnetStrength ui app 1.0.

Definition onReset (ui : t) (app : App.t) : t * App.t :=
  resetUI ui (App.reset app).

Definition onClearParticles (ui : t) (app : App.t) : t * App.t :=
  (ui, App.clearParticles app).

(** [onKeyDown (event)] for the key [code] and the modifier state
    [ctrlKey || metaKey]; the help and debug panels are not modelled. *)
Definition onKeyDown (ui : t) (app : App.t) (code : string) (ctrl : bool)
  : t * App.t :=
  if String.eqb code "Space" then onClearParticles ui app
  else if String.eqb code "KeyR" then
    if ctrl then onReset ui app else (ui, app)
  else if String.eqb code "ArrowUp" then adjustMagnetStrength ui app 0.1
  else if String.eqb code "ArrowDown" then adjustMagnetStrength ui app (-0.1)
  else if String.eqb code "Digit1" then setMagnetStrength ui app 0.5
  else if String.eqb code "Digit2" then setMagnetStrength ui app 1.0
  else if String.eqb code "Digit3" then setMagnetStrength ui app 1.5
  else if String.eqb code "Digit4" then setMagnetStrength ui app 2.0
  else (ui, app).

End UIControls.

(** ** The stages of [updateParticle]

    The body of [Physics.updateParticle], cut at its comments: the velocity
    update, the speed limit, the position update and the damping (the ground
    collision between the last two is [Physics.handleGroundCollision]).
    [updateParticle_stages] below shows that the function is their
    composition. *)

Module Stage.

Definition totalForce (p : particle) (magnets : list Magnet.t) : vec :=
  Vector3.add
    (fold_left (Physics.addMagneticForce p) magnets
       (Vector3.add (Vector3.mk 0 0 0)
          (Physics.calculateGravity (IronParticle.mass p))))
    (Physics.calculateAirResistance (IronParticle.velocity p)).

Definition accelerate (p : particle) (magnets : list Magnet.t)
  (deltaTime : R) : particle :=
  IronParticle.with_velocity p
    (Vector3.add (IronParticle.velocity p)
       (Vector3.multiplyScalar
          (Vector3.divideScalar (totalForce p magnets) (IronParticle.mass p))
          deltaTime)).

Definition limit (p : particle) : particle :=
  if Rgt_dec (Vector3.length (IronParticle.velocity p)) Physics.maxVelocity
  then
    IronParticle.with_velocity p
      (Vector3.multiplyScalar (Vector3.normalize (IronParticle.velocity p))
         Physics.maxVelocity)
  else p.

Definition move (p : particle) (deltaTime : R) : particle :=
  IronParticle.with_position p
    (Vector3.add (IronParticle.position p)
       (Vector3.multiplyScalar (Vector3.clone (IronParticle.velocity p))
          deltaTime)).

Definition damp (p : particle) : particle :=
  IronParticle.with_velocity p
    (Vector3.multiplyScalar (IronParticle.velocity p) Physics.DAMPING).

End Stage.

(** ** Binary64 arithmetic

    The force and collision functions once more, over the IEEE 754 binary64
    numbers a JavaScript Number is.  [+], [-], [*], [/] and [Math.sqrt]
    round to nearest, as the standard fixes them; a decimal literal denotes
    the nearest binary64 number, as it does in JavaScript.  ECMAScript leaves
    the precision of [Math.pow], [Math.cos] and [Math.exp] to the engine:
    [Math.pow (a, 2)] is taken as the correctly rounded product [a * a],
    and [Math.cos] and [Math.exp] are given where the standard fixes their
    value, at zero, and left undefined elsewhere. *)

Module F64.

Local Open Scope float_scope.

Module Math.

Definition PI : float := 0x1.921fb54442d18p+1.

Definition sqrt (a : float) : float := PrimFloat.sqrt a.

Definition abs (a : float) : float := PrimFloat.abs a.

(** [Math.pow (a, 2)] *)
Definition pow2 (a : float) : float := a * a.

(** [Math.max (a, b)]: NaN when either is, and [+0] above [-0]. *)
Definition max (a b : float) : float :=
  if is_nan a || is_nan b then nan
  else if a <? b then b
  else if b <? a then a
  else if is_zero a && get_sign a then b
  else a.

(** [Math.min (a, b)]: NaN when either is, and [-0] below [+0]. *)
Definition min (a b : float) : float :=
  if is_nan a || is_nan b then nan
  else if a <? b then a
  else if b <? a then b
  else if is_zero a && negb (get_sign a) then b
  else a.

(** [Math.cos (a)]: 1 at [+0] and [-0]. *)
Definition cos (a : float) : option float :=
  if is_zero a then Some 1 else None.

(** [Math.exp (a)]: 1 at [+0] and [-0]. *)
Definition exp (a : float) : option float :=
  if is_zero a then Some 1 else None.

End Math.

Module Vector3.

Record t : Type := mk { x : float; y : float; z : float }.

Definition clone (v : t) : t := v.

Definition add (a b : t) : t := mk (x a + x b) (y a + y b) (z a + z b).

Definition sub (a b : t) : t := mk (x a - x b) (y a - y b) (z a - z b).

Definition subVectors (a b : t) : t := sub a b.

Definition multiplyScalar (v : t) (s : float) : t :=
  mk (x v * s) (y v * s) (z v * s).

Definition divideScalar (v : t) (s : float) : t := multiplyScalar v (1 / s).

Definition dot (a b : t) : float := x a * x b + y a * y b + z a * z b.

Definition lengthSq (v : t) : float := x v * x v + y v * y v + z v * z v.

Definition length (v : t) : float :=
  Math.sqrt (x v * x v + y v * y v + z v * z v).

(** [divideScalar (length () || 1)]: zero and NaN are the falsy numbers. *)
Definition normalize (v : t) : t :=
  let l := length v in
  divideScalar v (if is_zero l || is_nan l then 1 else l).

End Vector3.

Module Utils.

Definition distance (v1 v2 : Vector3.t) : float :=
  Math.sqrt (Math.pow2 (Vector3.x v2 - Vector3.x v1)
             + Math.pow2 (Vector3.y v2 - Vector3.y v1)
             + Math.pow2 (Vector3.z v2 - Vector3.z v1)).

Definition clamp (value min max : float) : float :=
  Math.min (Math.max value min) max.

End Utils.

Module IronParticle.

(** The fields of a particle the collision reads and writes. *)
Record t : Type := mk {
  position : Vector3.t;
  velocity : Vector3.t;
  mass : float;
  radius : float
}.

Definition with_position (p : t) (v : Vector3.t) : t :=
  mk v (velocity p) (mass p) (radius p).

Definition with_velocity (p : t) (v : Vector3.t) : t :=
  mk (position p) v (mass p) (radius p).

End IronParticle.

Module Physics.

Definition MAGNETIC_FORCE_SCALE : float := 50.
Definition MIN_FORCE : float := 0.001.
Definition MAX_FORCE : float := 10.

Definition calculateBarMagnetField (magnetPos particlePos : Vector3.t)
  : option float :=
  let magnetDirection := Vector3.mk 0 1 0 in
  let toParticle :=
    Vector3.normalize (Vector3.subVectors particlePos magnetPos) in
  let dotProduct := Vector3.dot toParticle magnetDirection in
  match Math.cos (dotProduct * Math.PI) with
  | Some c => Some (Math.abs c + 0.3)
  | None => None
  end.

Definition calculateRingMagnetField (magnetPos particlePos : Vector3.t)
  : option float :=
  let magnetAxis := Vector3.mk 0 1 0 in
  let toParticle := Vector3.subVectors particlePos magnetPos in
  let axisDistance := Math.abs (Vector3.dot toParticle magnetAxis) in
  let radialDistance :=
    Math.sqrt (Vector3.lengthSq toParticle - axisDistance * axisDistance) in
  match Math.exp (- Math.pow2 (radialDistance - 1) * 2) with
  | Some ringEffect => Some (ringEffect + 0.2)
  | None => None
  end.

Definition calculateMagneticForce (sourcePos targetPos : Vector3.t)
  (magnetStrength : float) (magnetType : string) : option Vector3.t :=
  let distance := Utils.distance sourcePos targetPos in
  if distance <? 0.1 then Some (Vector3.mk 0 0 0)
  else
    let forceMagnitude :=
      (magnetStrength * MAGNETIC_FORCE_SCALE) / Math.pow2 distance in
    let shaped :=
      if String.eqb magnetType "bar" then
        option_map (fun field => forceMagnitude * field)
          (calculateBarMagnetField sourcePos targetPos)
      else if String.eqb magnetType "ring" then
        option_map (fun field => forceMagnitude * field)
          (calculateRingMagnetField sourcePos targetPos)
      else Some forceMagnitude in
    match shaped with
    | Some forceMagnitude =>
        let direction :=
          Vector3.normalize (Vector3.subVectors sourcePos targetPos) in
        let forceMagnitude := Utils.clamp forceMagnitude MIN_FORCE MAX_FORCE in
        Some (Vector3.multiplyScalar direction forceMagnitude)
    | None => None
    end.

Definition handleParticleCollision (particle1 particle2 : IronParticle.t)
  : IronParticle.t * IronParticle.t :=
  let distance :=
    Utils.distance (IronParticle.position particle1)
      (IronParticle.position particle2) in
  let minDistance :=
    IronParticle.radius particle1 + IronParticle.radius particle2 in
  if (distance <? minDistance) && (0 <? distance) then
    let collisionDirection :=
      Vector3.normalize
        (Vector3.subVectors (IronParticle.position particle2)
           (IronParticle.position particle1)) in
    let overlap := minDistance - distance in
    let separation :=
      Vector3.multiplyScalar (Vector3.clone collisionDirection)
        (overlap * 0.5) in
    let particle1 :=
      IronParticle.with_position particle1
        (Vector3.sub (IronParticle.position particle1) separation) in
    let particle2 :=
      IronParticle.with_position particle2
        (Vector3.add (IronParticle.position particle2) separation) in
    let relativeVelocity :=
      Vector3.subVectors (IronParticle.velocity particle1)
        (IronParticle.velocity particle2) in
    let velocityAlongNormal :=
      Vector3.dot relativeVelocity collisionDirection in
    if 0 <? velocityAlongNormal then (particle1, particle2)
    else
      let impulse :=
        2 * velocityAlongNormal
        / (IronParticle.mass particle1 + IronParticle.mass particle2) in
      (IronParticle.with_velocity particle1
         (Vector3.sub (IronParticle.velocity particle1)
            (Vector3.multiplyScalar (Vector3.clone collisionDirection)
               (impulse * IronParticle.mass particle2))),
       IronParticle.with_velocity particle2
         (Vector3.add (IronParticle.velocity particle2)
            (Vector3.multiplyScalar (Vector3.clone collisionDirection)
               (impulse * IronParticle.mass particle1))))
  else (particle1, particle2).

End Physics.

End F64.

(** ** Vocabulary of the properties *)

(** The particle [new IronParticle (position)] builds: default radius and
    mass, at rest, age 0. *)
Definition restingParticle (position : vec) : particle :=
  IronParticle.mk (IronParticle.Options.mk (Some 0.02) (Some 0.1))
    position Vector3.zero Vector3.zero 0.1 0.02 0 None false false None
    false true.

(** Two magnets are the same input of the physics when they agree on
    position, strength and type; they may differ in what the interface
    keeps in them (dragging, hover, mesh). *)
Definition same_magnet (m m' : Magnet.t) : Prop :=
  Magnet.position m = Magnet.position m'
  /\ Magnet.strength m = Magnet.strength m'
  /\ Magnet.type m = Magnet.type m'.

(** The same particle at the origin, older and flagged as stuck. *)
Definition stuckParticle : particle :=
  IronParticle.with_age
    (IronParticle.with_stuckToGround (restingParticle (Vector3.mk 0 0 0)) true)
    7.

(** Two bar magnets that differ in their interaction state only. *)
Definition draggedMagnet : Magnet.t :=
  Magnet.mk "bar" (Vector3.mk 0 1 0) 1 true true Magnet.BarMesh.

Definition idleMagnet : Magnet.t :=
  Magnet.mk "bar" (Vector3.mk 0 1 0) 1 false false Magnet.BarMesh.

(** The linear momentum of a particle, [mass * velocity]. *)
Definition momentum (p : particle) : vec :=
  Vector3.multiplyScalar (IronParticle.velocity p) (IronParticle.mass p).

(** [i] is the index of the oldest particle of [ps], the first such index
    when several particles share the maximal age. *)
Definition oldest_first (ps : list particle) (i : nat) : Prop :=
  exists p : particle,
    nth_error ps i = Some p
    /\ (forall (j : nat) (q : particle),
           nth_error ps j = Some q -> IronParticle.age q <= IronParticle.age p)
    /\ (forall (j : nat) (q : particle),
           (j < i)%nat -> nth_error ps j = Some q ->
           IronParticle.age q < IronParticle.age p).

(** An app whose array is full. *)
Definition crowded : App.t :=
  App.with_particles App.new (repeat (restingParticle (Vector3.mk 0 0 0)) 1000).

(** The two magnets [setupInitialScene] adds. *)
Definition barMagnet : Magnet.t :=
  Magnet.mk "bar" (Vector3.mk 0 0.5 0) 1.0 false false Magnet.BarMesh.

Definition ringMagnet : Magnet.t :=
  Magnet.mk "ring" (Vector3.mk (-3) 0.3 0) 0.8 false false Magnet.RingMesh.

(** Three particles of mass 0.1 and radius 0.02: one at the origin moving
    up at speed 1, one at the origin moving down at speed 1, and one at
    rest 0.01 above the origin. *)
Definition risingParticle : particle :=
  IronParticle.with_velocity (restingParticle (Vector3.mk 0 0 0))
    (Vector3.mk 0 1 0).

Definition fallingParticle : particle :=
  IronParticle.with_velocity (restingParticle (Vector3.mk 0 0 0))
    (Vector3.mk 0 (-1) 0).

Definition perchedParticle : particle := restingParticle (Vector3.mk 0 0.01 0).

(** The particle [new IronParticle (position, options)] builds, and the
    particle [addParticle] makes of a pooled particle [r]. *)
Definition constructed (position : vec) (opts : IronParticle.Options.t)
  : particle :=
  IronParticle.mk
    (IronParticle.Options.mk
       (Some (spread 0.02 (IronParticle.Options.radius opts)))
       (Some (spread 0.1 (IronParticle.Options.mass opts))))
    position Vector3.zero Vector3.zero
    (spread 0.1 (IronParticle.Options.mass opts))
    (spread 0.02 (IronParticle.Options.radius opts))
    0 None false false None false true.

Definition recycled (r : particle) (position : vec) : particle :=
  IronParticle.with_age
    (IronParticle.with_isDead
       (IronParticle.with_velocity (IronParticle.with_position r position)
          (Vector3.mk 0 0 0))
       false)
    0.

(** The app [addParticle] works on after it has made room. *)
Definition roomMade (app : App.t) : App.t :=
  if (App.maxParticles app <=? List.length (App.particles app))%nat
  then App.removeOldestParticle app else app.

(** The point at distance [r] from the magnet in the horizontal direction
    of angle [a]. *)
Definition onRay (magnetPos : vec) (a r : R) : vec :=
  Vector3.mk (Vector3.x magnetPos + cos a * r) (Vector3.y magnetPos)
    (Vector3.z magnetPos + sin a * r).

(** What neither the integrator nor the interaction checks touch. *)
Definition identity (p : particle) : R * R * R * option R * bool :=
  (IronParticle.mass p, IronParticle.radius p, IronParticle.age p,
   IronParticle.maxAge p, IronParticle.isDead p).

(** Binary64: the total linear momentum of a pair,
    [mass1 * velocity1 + mass2 * velocity2]. *)
Definition totalMomentum64 (p1 p2 : F64.IronParticle.t) : F64.Vector3.t :=
  F64.Vector3.add
    (F64.Vector3.multiplyScalar (F64.IronParticle.velocity p1)
       (F64.IronParticle.mass p1))
    (F64.Vector3.multiplyScalar (F64.IronParticle.velocity p2)
       (F64.IronParticle.mass p2)).

(** Binary64: two overlapping particles of mass 0.1 and radius 0.02, the
    first at the origin moving up at 0.5, the second at (0.01, 0.01, 0)
    moving sideways at 1. *)
Definition climbingParticle64 : F64.IronParticle.t :=
  F64.IronParticle.mk (F64.Vector3.mk 0 0 0) (F64.Vector3.mk 0 0.5 0) 0.1 0.02.

Definition driftingParticle64 : F64.IronParticle.t :=
  F64.IronParticle.mk (F64.Vector3.mk 0.01 0.01 0) (F64.Vector3.mk 1 0 0)
    0.1 0.02.

(** Binary64: whether [handleParticleCollision] reaches its impulse: the
    pair overlaps, the centres differ, and the early return is not taken. *)
Definition impulseApplied64 (p1 p2 : F64.IronParticle.t) : bool :=
  let distance :=
    F64.Utils.distance (F64.IronParticle.position p1)
      (F64.IronParticle.position p2) in
  let normal :=
    F64.Vector3.normalize
      (F64.Vector3.subVectors (F64.IronParticle.position p2)
         (F64.IronParticle.position p1)) in
  (PrimFloat.ltb distance
     (PrimFloat.add (F64.IronParticle.radius p1) (F64.IronParticle.radius p2))
   && PrimFloat.ltb 0 distance)
  && negb
       (PrimFloat.ltb 0
          (F64.Vector3.dot
             (F64.Vector3.subVectors (F64.IronParticle.velocity p1)
                (F64.IronParticle.velocity p2))
             normal)).

(** The part of the app a step leaves alone or keeps bounded. *)
Definition kept (app0 app : App.t) : Prop :=
  App.magnets app = App.magnets app0
  /\ App.maxParticles app = App.maxParticles app0
  /\ ((List.length (App.particlePool app0) <= 50)%nat ->
      (List.length (App.particlePool app) <= 50)%nat).

(** * Properties *)

(** ** Vectors and clamping *)

Section VectorFacts.

Implicit Types v a b : vec.

Lemma sum_squares_nonneg (p q r : R) : 0 <= p * p + q * q + r * r.
Proof. nra. Qed.

Lemma length_nonneg v : 0 <= Vector3.length v.
Proof. apply sqrt_pos. Qed.

Lemma length_multiplyScalar v (s : R) :
  Vector3.length (Vector3.multiplyScalar v s) = Rabs s * Vector3.length v.
Proof.
  unfold Vector3.length, Vector3.multiplyScalar; simpl.
  replace (Vector3.x v * s * (Vector3.x v * s)
           + Vector3.y v * s * (Vector3.y v * s)
           + Vector3.z v * s * (Vector3.z v * s))
    with (Rsqr s * (Vector3.x v * Vector3.x v + Vector3.y v * Vector3.y v
                    + Vector3.z v * Vector3.z v))
    by (unfold Rsqr; ring).
  rewrite sqrt_mult by (try apply Rle_0_sqr; apply sum_squares_nonneg).
  now rewrite sqrt_Rsqr_abs.
Qed.

Lemma length_normalize v :
  Vector3.length v <> 0 -> Vector3.length (Vector3.normalize v) = 1.
Proof.
  intros Hne. unfold Vector3.normalize, Vector3.divideScalar.
  destruct (Req_dec_T (Vector3.length v) 0) as [E | _]; [contradiction |].
  rewrite length_multiplyScalar.
  pose proof (length_nonneg v) as Hpos.
  assert (Hlt : 0 < Vector3.length v) by lra.
  rewrite Rabs_pos_eq.
  - now field.
  - apply Rlt_le, Rdiv_lt_0_compat; lra.
Qed.

Lemma distance_length a b :
  Utils.distance a b = Vector3.length (Vector3.subVectors a b).
Proof.
  unfold Utils.distance, Vector3.length, Vector3.subVectors, Vector3.sub.
  simpl. f_equal. ring.
Qed.

Lemma distance_sym a b : Utils.distance a b = Utils.distance b a.
Proof. unfold Utils.distance. f_equal. ring. Qed.

Lemma clamp_bounds (value lo hi : R) :
  lo <= hi -> lo <= Utils.clamp value lo hi <= hi.
Proof.
  intros H. unfold Utils.clamp, Rmin, Rmax.
  repeat destruct Rle_dec; lra.
Qed.

(** A vector whose components shrink in absolute value is not longer. *)
Lemma length_le_componentwise a b :
  Rabs (Vector3.x a) <= Rabs (Vector3.x b) ->
  Rabs (Vector3.y a) <= Rabs (Vector3.y b) ->
  Rabs (Vector3.z a) <= Rabs (Vector3.z b) ->
  Vector3.length a <= Vector3.length b.
Proof.
  intros Hx Hy Hz. unfold Vector3.length. apply sqrt_le_1_alt.
  apply Rsqr_le_abs_1 in Hx, Hy, Hz. unfold Rsqr in *. lra.
Qed.

End VectorFacts.

(** ** ForceField *)

(** C4 (singularity guard): closer than 0.1 to the magnet the force is
    exactly the zero vector, whatever the magnet's type and strength. *)
Theorem calculateMagneticForce_singularity :
  forall (sourcePos targetPos : vec) (magnetStrength : R) (magnetType : string),
    Utils.distance sourcePos targetPos < 0.1 ->
    Physics.calculateMagneticForce sourcePos targetPos magnetStrength magnetType
    = Vector3.zero.
Proof.
  intros s t k ty Hd. unfold Physics.calculateMagneticForce.
  destruct (Rlt_dec (Utils.distance s t) 0.1) as [_ | Hn]; [reflexivity |].
  contradiction.
Qed.

Lemma calculateMagneticForce_singularity_witness :
  Utils.distance (Vector3.mk 0 0 0) (Vector3.mk 0 0 0) < 0.1
  /\ Physics.calculateMagneticForce (Vector3.mk 0 0 0) (Vector3.mk 0 0 0)
       2 "ring" = Vector3.zero.
Proof.
  assert (H : Utils.distance (Vector3.mk 0 0 0) (Vector3.mk 0 0 0) < 0.1).
  { unfold Utils.distance; simpl.
    replace ((0 - 0) * ((0 - 0) * 1) + (0 - 0) * ((0 - 0) * 1)
             + (0 - 0) * ((0 - 0) * 1)) with 0 by ring.
    rewrite sqrt_0. lra. }
  split; [exact H |].
  exact (calculateMagneticForce_singularity _ _ 2 "ring" H).
Defined.

(** The force away from the singularity: a unit direction scaled by the
    clamped magnitude. *)
Lemma calculateMagneticForce_far (s t : vec) (k : R) (ty : string) :
  0.1 <= Utils.distance s t ->
  exists m : R,
    Physics.MIN_FORCE <= m <= Physics.MAX_FORCE
    /\ Physics.calculateMagneticForce s t k ty
       = Vector3.multiplyScalar
           (Vector3.normalize (Vector3.subVectors s t)) m.
Proof.
  intros Hd. unfold Physics.calculateMagneticForce.
  destruct (Rlt_dec (Utils.distance s t) 0.1) as [Hlt | _]; [lra |].
  eexists; split; [| reflexivity].
  apply clamp_bounds. unfold Physics.MIN_FORCE, Physics.MAX_FORCE. lra.
Qed.




(** *** The shape multiplier *)

Ltac clamp_cases :=
  unfold Utils.clamp, Rmin, Rmax,
    Physics.MIN_FORCE, Physics.MAX_FORCE, Physics.MAGNETIC_FORCE_SCALE;
  repeat destruct Rle_dec; try lra.

(** Away from the singularity the force on a particle is the unit vector
    towards the magnet, scaled by the clamped magnitude; the magnitude takes
    the bar multiplier for ["bar"], the ring multiplier for ["ring"] and no
    multiplier for any other type. *)
Lemma calculateMagneticForce_unfold (s t : vec) (k : R) (ty : string) :
  0.1 <= Utils.distance s t ->
  Physics.calculateMagneticForce s t k ty
  = Vector3.multiplyScalar (Vector3.normalize (Vector3.subVectors s t))
      (Utils.clamp
         (if String.eqb ty "bar" then
            k * 50 / Utils.distance s t ^ 2
            * Physics.calculateBarMagnetField s t
          else if String.eqb ty "ring" then
            k * 50 / Utils.distance s t ^ 2
            * Physics.calculateRingMagnetField s t
          else k * 50 / Utils.distance s t ^ 2)
         0.001 10).
Proof.
  intros Hd. unfold Physics.calculateMagneticForce.
  destruct (Rlt_dec (Utils.distance s t) 0.1) as [Hlt | _]; [lra |].
  reflexivity.
Qed.

Section HorseshoeExample.

Let magnetPos : vec := Vector3.mk 0 0 0.
Let particlePos : vec := Vector3.mk 1 0 0.

Lemma example_distance : Utils.distance magnetPos particlePos = 1.
Proof.
  unfold Utils.distance; simpl.
  replace ((1 - 0) * ((1 - 0) * 1) + (0 - 0) * ((0 - 0) * 1)
           + (0 - 0) * ((0 - 0) * 1)) with 1 by ring.
  apply sqrt_1.
Qed.

Lemma example_direction :
  Vector3.normalize (Vector3.subVectors magnetPos particlePos)
  = Vector3.mk (-1) 0 0.
Proof.
  assert (L : Vector3.length (Vector3.subVectors magnetPos particlePos) = 1).
  { rewrite <- distance_length. apply example_distance. }
  unfold Vector3.normalize. rewrite L.
  destruct (Req_dec_T 1 0) as [E | _]; [lra |].
  unfold Vector3.divideScalar, Vector3.multiplyScalar; simpl.
  f_equal; lra.
Qed.

Lemma example_bar_field :
  Physics.calculateBarMagnetField magnetPos particlePos = 1.3.
Proof.
  assert (L : Vector3.length (Vector3.subVectors particlePos magnetPos) = 1).
  { rewrite <- distance_length, distance_sym. apply example_distance. }
  unfold Physics.calculateBarMagnetField, Vector3.normalize. rewrite L.
  destruct (Req_dec_T 1 0) as [E | _]; [lra |].
  unfold Vector3.divideScalar, Vector3.multiplyScalar, Vector3.dot; simpl.
  replace (((1 - 0) * (1 / 1) * 0 + (0 - 0) * (1 / 1) * 1
            + (0 - 0) * (1 / 1) * 0) * PI) with 0 by field.
  rewrite cos_0, Rabs_R1. lra.
Qed.

Lemma example_horseshoe :
  Physics.calculateMagneticForce magnetPos particlePos 0.1 "horseshoe"
  = Vector3.mk (-5) 0 0.
Proof.
  rewrite calculateMagneticForce_unfold by (rewrite example_distance; lra).
  rewrite example_direction, example_distance. simpl String.eqb. cbv iota.
  unfold Vector3.multiplyScalar; simpl.
  replace (Utils.clamp (0.1 * 50 / (1 * (1 * 1))) 0.001 10) with 5
    by (replace (0.1 * 50 / (1 * (1 * 1))) with 5 by lra; clamp_cases).
  f_equal; ring.
Qed.

Lemma example_bar :
  Physics.calculateMagneticForce magnetPos particlePos 0.1 "bar"
  = Vector3.mk (-6.5) 0 0.
Proof.
  rewrite calculateMagneticForce_unfold by (rewrite example_distance; lra).
  rewrite example_direction, example_distance, example_bar_field.
  simpl String.eqb. cbv iota.
  unfold Vector3.multiplyScalar; simpl.
  replace (Utils.clamp (0.1 * 50 / (1 * (1 * 1)) * 1.3) 0.001 10) with 6.5
    by (replace (0.1 * 50 / (1 * (1 * 1)) * 1.3) with 6.5 by lra;
        clamp_cases).
  f_equal; lra.
Qed.

End HorseshoeExample.

(** C2, as stated, fails: one unit to the side of a magnet of strength 0.1
    the bar multiplier is 1.3, so a bar magnet pulls with 6.5 where a
    horseshoe magnet pulls with 5. *)
Lemma horseshoe_differs_from_bar :
  Physics.calculateMagneticForce (Vector3.mk 0 0 0) (Vector3.mk 1 0 0)
    0.1 "horseshoe"
  <> Physics.calculateMagneticForce (Vector3.mk 0 0 0) (Vector3.mk 1 0 0)
       0.1 "bar".
Proof.
  rewrite example_horseshoe, example_bar.
  intros E. apply (f_equal Vector3.x) in E. simpl in E. lra.
Qed.

(** C2, amended: a horseshoe magnet gets no shape multiplier.  From distance
    0.1 on its force is the normalized direction from the particle to the
    magnet multiplied by the clamped inverse-square magnitude; a bar magnet
    pulls along the same direction, with the bar multiplier inside the
    clamp. *)
Theorem horseshoe_force_unshaped :
  forall (sourcePos targetPos : vec) (magnetStrength : R),
    0.1 <= Utils.distance sourcePos targetPos ->
    let direction :=
      Vector3.normalize (Vector3.subVectors sourcePos targetPos) in
    let base :=
      magnetStrength * 50 / Utils.distance sourcePos targetPos ^ 2 in
    Physics.calculateMagneticForce sourcePos targetPos magnetStrength
      "horseshoe"
    = Vector3.multiplyScalar direction (Utils.clamp base 0.001 10)
    /\ Physics.calculateMagneticForce sourcePos targetPos magnetStrength "bar"
       = Vector3.multiplyScalar direction
           (Utils.clamp
              (base * Physics.calculateBarMagnetField sourcePos targetPos)
              0.001 10).
Proof.
  intros s t k Hd direction base.
  rewrite !calculateMagneticForce_unfold by assumption.
  simpl String.eqb. cbv iota. fold direction base.
  split; reflexivity.
Qed.

Lemma horseshoe_force_unshaped_witness :
  0.1 <= Utils.distance (Vector3.mk 0 0 0) (Vector3.mk 1 0 0)
  /\ Physics.calculateMagneticForce (Vector3.mk 0 0 0) (Vector3.mk 1 0 0)
       0.1 "horseshoe"
     = Vector3.multiplyScalar
         (Vector3.normalize
            (Vector3.subVectors (Vector3.mk 0 0 0) (Vector3.mk 1 0 0)))
         (Utils.clamp
            (0.1 * 50
             / Utils.distance (Vector3.mk 0 0 0) (Vector3.mk 1 0 0) ^ 2)
            0.001 10).
Proof.
  assert (H : 0.1 <= Utils.distance (Vector3.mk 0 0 0) (Vector3.mk 1 0 0)).
  { rewrite example_distance. lra. }
  split; [exact H |].
  exact (proj1 (horseshoe_force_unshaped _ _ 0.1 H)).
Defined.

(** ** IntegratorStep *)

Lemma updateParticle_stages (p : particle) (ms : list Magnet.t) (dt : R) :
  Physics.updateParticle p ms dt
  = Stage.damp
      (Physics.handleGroundCollision
         (Stage.move (Stage.limit (Stage.accelerate p ms dt)) dt)).
Proof. reflexivity. Qed.

Lemma Rabs_scale_le (a c : R) : 0 <= c <= 1 -> Rabs (a * c) <= Rabs a.
Proof.
  intros Hc. rewrite Rabs_mult, (Rabs_pos_eq c) by lra.
  pose proof (Rabs_pos a). nra.
Qed.

Lemma handleGroundCollision_slows (p : particle) :
  Vector3.length (IronParticle.velocity (Physics.handleGroundCollision p))
  <= Vector3.length (IronParticle.velocity p).
Proof.
  unfold Physics.handleGroundCollision, Physics.restitution.
  destruct (Rle_dec (Vector3.y (IronParticle.position p)) 0); [| lra].
  cbn [IronParticle.velocity IronParticle.with_position].
  destruct (Rlt_dec (Vector3.y (IronParticle.velocity p)) 0);
    apply length_le_componentwise; simpl;
    try apply Rabs_scale_le; try lra.
  replace (- Vector3.y (IronParticle.velocity p) * 0.3)
    with (- (Vector3.y (IronParticle.velocity p) * 0.3)) by ring.
  rewrite Rabs_Ropp. apply Rabs_scale_le. lra.
Qed.

Lemma limit_speed (p : particle) :
  Vector3.length (IronParticle.velocity (Stage.limit p))
  <= Physics.maxVelocity.
Proof.
  unfold Stage.limit, Physics.maxVelocity.
  destruct (Rgt_dec (Vector3.length (IronParticle.velocity p)) 20) as [H | H].
  - cbn [IronParticle.velocity IronParticle.with_velocity].
    rewrite length_multiplyScalar, length_normalize by lra.
    rewrite Rabs_pos_eq; lra.
  - lra.
Qed.

Lemma updateParticle_speed (p : particle) (ms : list Magnet.t) (dt : R) :
  Vector3.length (IronParticle.velocity (Physics.updateParticle p ms dt))
  <= Physics.DAMPING * Physics.maxVelocity.
Proof.
  rewrite updateParticle_stages. unfold Stage.damp.
  cbn [IronParticle.velocity IronParticle.with_velocity].
  rewrite length_multiplyScalar.
  unfold Physics.DAMPING. rewrite Rabs_pos_eq by lra.
  apply Rmult_le_compat_l; [lra |].
  eapply Rle_trans; [apply handleGroundCollision_slows |].
  unfold Stage.move. cbn [IronParticle.velocity IronParticle.with_position].
  apply limit_speed.
Qed.

(** C6: one [updateParticle] call leaves the particle with a speed of at
    most 20, whatever its position and velocity before, the magnets and the
    time step; so does any non-empty sequence of calls, each with magnets
    and a time step of its own. *)
Theorem updateParticle_velocity_bound :
  forall p : particle,
    0 < IronParticle.mass p ->
    (forall (magnets : list Magnet.t) (deltaTime : R),
        Vector3.length
          (IronParticle.velocity (Physics.updateParticle p magnets deltaTime))
        <= 20)
    /\ (forall calls : list (list Magnet.t * R),
           calls <> [] ->
           Vector3.length
             (IronParticle.velocity
                (fold_left
                   (fun q call => Physics.updateParticle q (fst call) (snd call))
                   calls p))
           <= 20).
Proof.
  intros p _.
  assert (One : forall q ms dt,
             Vector3.length
               (IronParticle.velocity (Physics.updateParticle q ms dt)) <= 20).
  { intros q ms dt. pose proof (updateParticle_speed q ms dt) as H.
    unfold Physics.DAMPING, Physics.maxVelocity in H. lra. }
  split; [apply One |].
  intros calls Hne.
  destruct (exists_last Hne) as (init & [ms dt] & ->).
  rewrite fold_left_app. simpl. apply One.
Qed.

Lemma new_particle (position : vec) :
  IronParticle.new position IronParticle.Options.empty
  = Normal (restingParticle position).
Proof. reflexivity. Qed.

Lemma updateParticle_velocity_bound_witness :
  0 < IronParticle.mass (restingParticle (Vector3.mk 0 0 0))
  /\ Vector3.length
       (IronParticle.velocity
          (Physics.updateParticle (restingParticle (Vector3.mk 0 0 0)) []
             (1 / 60)))
     <= 20.
Proof.
  assert (H : 0 < IronParticle.mass (restingParticle (Vector3.mk 0 0 0))).
  { simpl. lra. }
  split; [exact H |].
  exact (proj1 (updateParticle_velocity_bound _ H) [] (1 / 60)).
Defined.

(** *** Determinism *)

Lemma totalForce_inputs (p p' : particle) (ms ms' : list Magnet.t) :
  IronParticle.position p = IronParticle.position p' ->
  IronParticle.velocity p = IronParticle.velocity p' ->
  IronParticle.mass p = IronParticle.mass p' ->
  Forall2 same_magnet ms ms' ->
  Stage.totalForce p ms = Stage.totalForce p' ms'.
Proof.
  intros Hpos Hvel Hmass Hms. unfold Stage.totalForce.
  rewrite Hvel, Hmass. f_equal.
  generalize (Vector3.add (Vector3.mk 0 0 0)
                (Physics.calculateGravity (IronParticle.mass p'))).
  induction Hms as [| m m' ms ms' (Ep & Es & Et) _ IH]; intros f; simpl.
  - reflexivity.
  - unfold Physics.addMagneticForce at 2 4.
    rewrite Hpos, Ep, Es, Et. apply IH.
Qed.

Lemma handleGroundCollision_inputs (p p' : particle) :
  IronParticle.position p = IronParticle.position p' ->
  IronParticle.velocity p = IronParticle.velocity p' ->
  IronParticle.position (Physics.handleGroundCollision p)
  = IronParticle.position (Physics.handleGroundCollision p')
  /\ IronParticle.velocity (Physics.handleGroundCollision p)
     = IronParticle.velocity (Physics.handleGroundCollision p').
Proof.
  intros Hpos Hvel. unfold Physics.handleGroundCollision.
  rewrite Hpos.
  destruct (Rle_dec (Vector3.y (IronParticle.position p')) 0);
    [| now split].
  cbn [IronParticle.velocity IronParticle.position IronParticle.with_position].
  rewrite Hvel.
  destruct (Rlt_dec (Vector3.y (IronParticle.velocity p')) 0);
    simpl; rewrite ?Hpos, ?Hvel; now split.
Qed.

(** C9: the position and the velocity [updateParticle] leaves depend on the
    particle's position, velocity and mass, on the magnets' positions,
    strengths and types, and on the time step, and on nothing else: two
    calls that agree on these agree on the resulting position and
    velocity. *)
Theorem updateParticle_deterministic :
  forall (p p' : particle) (magnets magnets' : list Magnet.t) (deltaTime : R),
    IronParticle.position p = IronParticle.position p' ->
    IronParticle.velocity p = IronParticle.velocity p' ->
    IronParticle.mass p = IronParticle.mass p' ->
    Forall2 same_magnet magnets magnets' ->
    IronParticle.position (Physics.updateParticle p magnets deltaTime)
    = IronParticle.position (Physics.updateParticle p' magnets' deltaTime)
    /\ IronParticle.velocity (Physics.updateParticle p magnets deltaTime)
       = IronParticle.velocity (Physics.updateParticle p' magnets' deltaTime).
Proof.
  intros p p' ms ms' dt Hpos Hvel Hmass Hms.
  rewrite !updateParticle_stages.
  set (q := Stage.move (Stage.limit (Stage.accelerate p ms dt)) dt).
  set (q' := Stage.move (Stage.limit (Stage.accelerate p' ms' dt)) dt).
  assert (Hq : IronParticle.position q = IronParticle.position q'
               /\ IronParticle.velocity q = IronParticle.velocity q').
  { unfold q, q', Stage.move, Stage.limit, Stage.accelerate.
    rewrite (totalForce_inputs p p' ms ms') by assumption.
    cbn [IronParticle.velocity IronParticle.with_velocity].
    rewrite Hvel, Hmass.
    destruct Rgt_dec; simpl; rewrite ?Hpos, ?Hvel; now split. }
  destruct Hq as [Hqp Hqv].
  destruct (handleGroundCollision_inputs q q' Hqp Hqv) as [Hgp Hgv].
  unfold Stage.damp. simpl. rewrite Hgp, Hgv. now split.
Qed.

Lemma updateParticle_deterministic_witness :
  restingParticle (Vector3.mk 0 0 0) <> stuckParticle
  /\ Forall2 same_magnet [idleMagnet] [draggedMagnet]
  /\ IronParticle.position
       (Physics.updateParticle (restingParticle (Vector3.mk 0 0 0))
          [idleMagnet] (1 / 60))
     = IronParticle.position
         (Physics.updateParticle stuckParticle [draggedMagnet] (1 / 60)).
Proof.
  assert (H : Forall2 same_magnet [idleMagnet] [draggedMagnet])
    by (repeat constructor).
  split; [| split; [exact H |]].
  - intros E. apply (f_equal IronParticle.stuckToGround) in E. discriminate E.
  - exact (proj1 (updateParticle_deterministic
                    (restingParticle (Vector3.mk 0 0 0)) stuckParticle
                    [idleMagnet] [draggedMagnet] (1 / 60)
                    eq_refl eq_refl eq_refl H)).
Defined.

(** ** CollisionResolver *)

(** Over the reals the two velocity changes of [handleParticleCollision]
    cancel after weighting by the masses: the total linear momentum of the
    pair is the same before and after the call. *)
Lemma handleParticleCollision_momentum :
  forall particle1 particle2 : particle,
    let after := Physics.handleParticleCollision particle1 particle2 in
    Vector3.add (momentum (fst after)) (momentum (snd after))
    = Vector3.add (momentum particle1) (momentum particle2)
    /\ IronParticle.mass (fst after) = IronParticle.mass particle1
    /\ IronParticle.mass (snd after) = IronParticle.mass particle2.
Proof.
  intros p1 p2 after. unfold after, Physics.handleParticleCollision.
  destruct Rlt_dec; [| now repeat split].
  destruct Rgt_dec; [| now repeat split].
  cbn [IronParticle.velocity IronParticle.with_position IronParticle.mass].
  destruct Rgt_dec; [now repeat split |].
  repeat split.
  unfold momentum, Vector3.add, Vector3.sub, Vector3.multiplyScalar,
    Vector3.clone.
  cbn [fst snd IronParticle.velocity IronParticle.mass
         IronParticle.with_velocity IronParticle.with_position
         Vector3.x Vector3.y Vector3.z].
  f_equal; ring.
Qed.

(** C10, as stated, fails in binary64 arithmetic: two overlapping particles
    of mass 0.1, one moving up at 0.5 and one moving sideways at 1, have
    total momentum (0.1, 0.05, 0) before the call and
    (0.10000000000000002, 0.05, 0) after it. *)
Lemma handleParticleCollision_momentum_rounded :
  impulseApplied64 climbingParticle64 driftingParticle64 = true
  /\ totalMomentum64 climbingParticle64 driftingParticle64
     = F64.Vector3.mk 0.1 0.05 0
  /\ totalMomentum64
       (fst (F64.Physics.handleParticleCollision climbingParticle64
               driftingParticle64))
       (snd (F64.Physics.handleParticleCollision climbingParticle64
               driftingParticle64))
     = F64.Vector3.mk 0.10000000000000002 0.05 0
  /\ totalMomentum64
       (fst (F64.Physics.handleParticleCollision climbingParticle64
               driftingParticle64))
       (snd (F64.Physics.handleParticleCollision climbingParticle64
               driftingParticle64))
     <> totalMomentum64 climbingParticle64 driftingParticle64.
Proof.
  split; [vm_compute; reflexivity |].
  split; [vm_compute; reflexivity |].
  split; [vm_compute; reflexivity |].
  intros E.
  apply (f_equal (fun v => PrimFloat.eqb (F64.Vector3.x v) 0.1)) in E.
  vm_compute in E. discriminate E.
Qed.

(** C10, amended, over binary64 numbers: [handleParticleCollision] never
    changes a mass; unless it reaches its impulse it leaves both velocities,
    and so the total momentum, exactly as they were; and when it does, it
    takes [normal * (impulse * mass2)] from the first velocity and adds
    [normal * (impulse * mass1)] to the second, for one normal and one
    impulse. *)
Theorem handleParticleCollision_equal_and_opposite :
  forall particle1 particle2 : F64.IronParticle.t,
    let after := F64.Physics.handleParticleCollision particle1 particle2 in
    let normal :=
      F64.Vector3.normalize
        (F64.Vector3.subVectors (F64.IronParticle.position particle2)
           (F64.IronParticle.position particle1)) in
    let along :=
      F64.Vector3.dot
        (F64.Vector3.subVectors (F64.IronParticle.velocity particle1)
           (F64.IronParticle.velocity particle2))
        normal in
    let impulse :=
      PrimFloat.div (PrimFloat.mul 2 along)
        (PrimFloat.add (F64.IronParticle.mass particle1)
           (F64.IronParticle.mass particle2)) in
    (F64.IronParticle.mass (fst after) = F64.IronParticle.mass particle1
     /\ F64.IronParticle.mass (snd after) = F64.IronParticle.mass particle2)
    /\ (impulseApplied64 particle1 particle2 = false ->
        F64.IronParticle.velocity (fst after)
        = F64.IronParticle.velocity particle1
        /\ F64.IronParticle.velocity (snd after)
           = F64.IronParticle.velocity particle2
        /\ totalMomentum64 (fst after) (snd after)
           = totalMomentum64 particle1 particle2)
    /\ (impulseApplied64 particle1 particle2 = true ->
        F64.IronParticle.velocity (fst after)
        = F64.Vector3.sub (F64.IronParticle.velocity particle1)
            (F64.Vector3.multiplyScalar normal
               (PrimFloat.mul impulse (F64.IronParticle.mass particle2)))
        /\ F64.IronParticle.velocity (snd after)
           = F64.Vector3.add (F64.IronParticle.velocity particle2)
               (F64.Vector3.multiplyScalar normal
                  (PrimFloat.mul impulse (F64.IronParticle.mass particle1)))).
Proof.
  intros p1 p2 after normal along impulse.
  unfold after, impulseApplied64, totalMomentum64,
    F64.Physics.handleParticleCollision.
  fold normal.
  destruct (andb _ _) eqn:Hcontact; cbn [andb negb].
  - cbn [F64.IronParticle.velocity F64.IronParticle.with_position].
    fold along.
    destruct (PrimFloat.ltb 0 along) eqn:Halong; cbn [negb fst snd].
    + split; [split; reflexivity |]. split; [| discriminate].
      intros _. repeat split.
    + split; [split; reflexivity |]. split; [discriminate |].
      intros _. split; reflexivity.
  - cbn [fst snd]. split; [split; reflexivity |]. split; [| discriminate].
    intros _. repeat split.
Qed.

(** ** ParticleLifecycle *)

Lemma nth_error_snoc {A : Type} (l : list A) (a b : A) (j : nat) :
  nth_error (l ++ [a]) j = Some b ->
  nth_error l j = Some b \/ (j = List.length l /\ b = a).
Proof.
  intros H. destruct (Nat.lt_ge_cases j (List.length l)) as [Hlt | Hge].
  - rewrite nth_error_app1 in H by assumption. now left.
  - rewrite nth_error_app2 in H by assumption.
    destruct (j - List.length l)%nat as [| k] eqn:E; simpl in H.
    + right. split; [lia | congruence].
    + destruct k; discriminate H.
Qed.

(** The scan keeps the first maximum of the particles visited so far. *)
Lemma scanOldest_spec (rest visited : list particle) (oldestIndex : nat)
  (maxAge : R) :
  (exists p, nth_error visited oldestIndex = Some p
             /\ IronParticle.age p = maxAge) ->
  (forall j q, nth_error visited j = Some q -> IronParticle.age q <= maxAge) ->
  (forall j q, (j < oldestIndex)%nat -> nth_error visited j = Some q ->
               IronParticle.age q < maxAge) ->
  oldest_first (visited ++ rest)
    (App.scanOldest rest (List.length visited) oldestIndex maxAge).
Proof.
  revert visited oldestIndex maxAge.
  induction rest as [| p rest IH]; intros visited oi m (p0 & Hp0 & Hage) Hmax Hfirst.
  - simpl. rewrite app_nil_r. exists p0. subst m. auto.
  - simpl.
    replace (visited ++ p :: rest) with ((visited ++ [p]) ++ rest)
      by (rewrite <- app_assoc; reflexivity).
    replace (S (List.length visited)) with (List.length (visited ++ [p]))
      by (rewrite length_app; simpl; lia).
    assert (Hoi : (oi < List.length visited)%nat).
    { apply nth_error_Some. congruence. }
    destruct (Rgt_dec (IronParticle.age p) m) as [Hgt | Hle]; apply IH.
    + exists p. split; [| reflexivity].
      rewrite nth_error_app2, Nat.sub_diag by lia. reflexivity.
    + intros j q Hq. apply nth_error_snoc in Hq as [Hq | [_ ->]]; [| lra].
      apply Hmax in Hq. lra.
    + intros j q Hj Hq. rewrite nth_error_app1 in Hq by assumption.
      apply Hmax in Hq. lra.
    + exists p0. split; [| assumption].
      rewrite nth_error_app1 by assumption. assumption.
    + intros j q Hq. apply nth_error_snoc in Hq as [Hq | [_ ->]]; [| lra].
      eauto.
    + intros j q Hj Hq. rewrite nth_error_app1 in Hq by lia. eauto.
Qed.

Lemma splice1_length {A : Type} (l : list A) (i : nat) (a : A) :
  nth_error l i = Some a ->
  List.length (Array.splice1 l i) = pred (List.length l).
Proof.
  intros H. assert (Hi : (i < List.length l)%nat).
  { apply nth_error_Some. congruence. }
  unfold Array.splice1. rewrite length_app, length_firstn, length_skipn. lia.
Qed.

Lemma removeParticle_particles (app : App.t) (i : nat) (p : particle) :
  nth_error (App.particles app) i = Some p ->
  App.particles (App.removeParticle app i)
  = Array.splice1 (App.particles app) i.
Proof.
  intros H. unfold App.removeParticle. rewrite H.
  destruct (_ <? 50)%nat; reflexivity.
Qed.

(** [removeOldestParticle] on a non-empty array removes the first oldest
    particle and no other. *)
Lemma removeOldestParticle_spec (app : App.t) :
  App.particles app <> [] ->
  exists i : nat,
    oldest_first (App.particles app) i
    /\ App.particles (App.removeOldestParticle app)
       = Array.splice1 (App.particles app) i.
Proof.
  intros Hne. unfold App.removeOldestParticle.
  destruct (App.particles app) as [| p0 rest] eqn:E; [contradiction |].
  pose proof (scanOldest_spec rest [p0] 0 (IronParticle.age p0)) as Hscan.
  simpl in Hscan.
  assert (Hold : oldest_first (p0 :: rest)
                   (App.scanOldest rest 1 0 (IronParticle.age p0))).
  { apply Hscan.
    - exists p0. split; reflexivity.
    - intros [| [| j]] q Hq; simpl in Hq; try discriminate Hq.
      injection Hq as <-. lra.
    - intros j q Hj. lia. }
  eexists. split; [exact Hold |].
  destruct Hold as (p & Hp & _).
  rewrite <- E in Hp |- *. erewrite removeParticle_particles; eauto.
Qed.

(** What [addParticle] leaves in the array: the particles it found, less
    the evicted one when the array was full, and the new particle pushed at
    the end. *)
Lemma addParticle_particles (app : App.t) (position : vec)
  (options : IronParticle.Options.t) :
  exists (app' : App.t) (fresh : particle),
    App.addParticle app position options = Normal (app', fresh)
    /\ App.particles app'
       = App.particles
           (if (App.maxParticles app <=? List.length (App.particles app))%nat
            then App.removeOldestParticle app else app)
         ++ [fresh].
Proof.
  unfold App.addParticle.
  set (app1 := if (_ <=? _)%nat then _ else app).
  destruct (Array.pop (App.particlePool app1)) as [[p pool] |];
    simpl; eexists; eexists; split; reflexivity.
Qed.

(** The particle [addParticle] inserts, recycled from the pool or newly
    constructed, is at the requested position, at rest, of age 0 and alive. *)
Lemma addParticle_fresh (app app' : App.t) (position : vec)
  (options : IronParticle.Options.t) (fresh : particle) :
  App.addParticle app position options = Normal (app', fresh) ->
  IronParticle.position fresh = position
  /\ IronParticle.velocity fresh = Vector3.mk 0 0 0
  /\ IronParticle.age fresh = 0
  /\ IronParticle.isDead fresh = false.
Proof.
  unfold App.addParticle.
  set (app1 := if (_ <=? _)%nat then _ else app).
  destruct (Array.pop (App.particlePool app1)) as [[p pool] |];
    simpl; intros [= _ <-]; repeat split.
Qed.

(** C5: when the array holds 1000 particles, [addParticle] returns, having
    evicted exactly one particle, the oldest one and the first of the
    oldest in array order, and pushed the new particle, which is at the
    requested position, at rest, of age 0 and alive: 1000 particles are
    live afterwards. *)
Theorem addParticle_at_ceiling :
  forall (app : App.t) (position : vec) (options : IronParticle.Options.t),
    App.maxParticles app = 1000%nat ->
    List.length (App.particles app) = 1000%nat ->
    exists (i : nat) (app' : App.t) (fresh : particle),
      App.addParticle app position options = Normal (app', fresh)
      /\ oldest_first (App.particles app) i
      /\ App.particles app' = Array.splice1 (App.particles app) i ++ [fresh]
      /\ List.length (App.particles app') = 1000%nat
      /\ IronParticle.position fresh = position
      /\ IronParticle.velocity fresh = Vector3.mk 0 0 0
      /\ IronParticle.age fresh = 0
      /\ IronParticle.isDead fresh = false.
Proof.
  intros app position options Hmax Hlen.
  destruct (addParticle_particles app position options)
    as (app' & fresh & Hadd & Hps).
  rewrite Hmax, Hlen, Nat.leb_refl in Hps.
  destruct (removeOldestParticle_spec app) as (i & Hold & Hrm).
  { intros E. rewrite E in Hlen. discriminate Hlen. }
  exists i, app', fresh. rewrite Hps, Hrm.
  split; [assumption |]. split; [assumption |]. split; [reflexivity |].
  split.
  - destruct Hold as (p & Hp & _).
    rewrite length_app, (splice1_length _ _ _ Hp), Hlen. reflexivity.
  - exact (addParticle_fresh _ _ _ _ _ Hadd).
Qed.

Lemma addParticle_at_ceiling_witness :
  App.maxParticles crowded = 1000%nat
  /\ List.length (App.particles crowded) = 1000%nat
  /\ exists (i : nat) (app' : App.t) (fresh : particle),
       App.addParticle crowded (Vector3.mk 1 1 1) IronParticle.Options.empty
       = Normal (app', fresh)
       /\ oldest_first (App.particles crowded) i
       /\ App.particles app'
          = Array.splice1 (App.particles crowded) i ++ [fresh]
       /\ List.length (App.particles app') = 1000%nat
       /\ IronParticle.position fresh = Vector3.mk 1 1 1
       /\ IronParticle.velocity fresh = Vector3.mk 0 0 0
       /\ IronParticle.age fresh = 0
       /\ IronParticle.isDead fresh = false.
Proof.
  assert (Hmax : App.maxParticles crowded = 1000%nat) by reflexivity.
  assert (Hlen : List.length (App.particles crowded) = 1000%nat)
    by apply repeat_length.
  split; [exact Hmax |]. split; [exact Hlen |].
  exact (addParticle_at_ceiling crowded (Vector3.mk 1 1 1)
           IronParticle.Options.empty Hmax Hlen).
Defined.

(** ** Construction *)

(** C7, as stated, fails: a particle of mass -2 and radius -1 and a magnet
    of the unknown type ["triangle"] are constructed without a throw; the
    particle keeps the negative values and the magnet is drawn as a bar. *)
Lemma invalid_configuration_accepted :
  (exists p : particle,
      IronParticle.new (Vector3.mk 0 0 0)
        (IronParticle.Options.mk (Some (-1)) (Some (-2))) = Normal p
      /\ IronParticle.mass p = -2
      /\ IronParticle.radius p = -1)
  /\ (exists m : Magnet.t,
         Magnet.new (Vector3.mk 0 0 0) "triangle" Magnet.Options.empty
         = Normal m
         /\ Magnet.type m = "triangle"%string
         /\ Magnet.group m = Magnet.BarMesh)
  /\ ~ (exists name : string,
           IronParticle.new (Vector3.mk 0 0 0)
             (IronParticle.Options.mk (Some (-1)) (Some (-2))) = Throw name)
  /\ ~ (exists name : string,
           Magnet.new (Vector3.mk 0 0 0) "triangle" Magnet.Options.empty
           = Throw name).
Proof.
  repeat split.
  - eexists. repeat split.
  - eexists. repeat split.
  - intros [name H]. discriminate H.
  - intros [name H]. discriminate H.
Qed.

(** What can go wrong in [createMesh]: a property that is [null] or
    [undefined]. *)
Lemma createMesh_cases (type : string) (size : option Magnet.Options.size_t)
  (colors : option Magnet.Options.colors_t) :
  (exists group : Magnet.mesh, Magnet.createMesh type size colors = Normal group)
  \/ (Magnet.createMesh type size colors = Throw "TypeError"
      /\ (size = None \/ colors = None)).
Proof.
  unfold Magnet.createMesh, Magnet.createBarMagnet, Magnet.createRingMagnet,
    Magnet.createHorseshoeMagnet.
  destruct size, colors; repeat destruct (String.eqb type _); eauto.
Qed.

Lemma createMesh_given (type : string) (size : Magnet.Options.size_t)
  (colors : Magnet.Options.colors_t) :
  exists group : Magnet.mesh,
    Magnet.createMesh type (Some size) (Some colors) = Normal group.
Proof.
  unfold Magnet.createMesh. repeat destruct (String.eqb type _); simpl; eauto.
Qed.

Lemma merged_None {A : Type} (default : A) (given : Magnet.Options.property A) :
  Magnet.Options.merged default given = None <-> given = Magnet.Options.Nullish.
Proof. destruct given; simpl; split; congruence. Qed.

(** C7, amended: construction validates nothing.  A constructor that
    returns has stored the mass and the radius (particle) or the type string
    (magnet) it was given, whatever they are; it returns whenever the
    position is a vector and, for a magnet, neither [options.size] nor
    [options.colors] is [null] or [undefined]; and when it throws, it throws
    the engine's TypeError on such a [null] or [undefined], never a
    condition of its own. *)
Theorem construction_unvalidated :
  (forall (position : option vec) (options : IronParticle.Options.t),
      (forall p : particle,
          IronParticle.constructor position options = Normal p ->
          IronParticle.mass p = spread 0.1 (IronParticle.Options.mass options)
          /\ IronParticle.radius p
             = spread 0.02 (IronParticle.Options.radius options))
      /\ (position <> None ->
          exists p : particle,
            IronParticle.constructor position options = Normal p)
      /\ (forall name : string,
             IronParticle.constructor position options = Throw name ->
             name = "TypeError"%string /\ position = None))
  /\ (forall (position : option vec) (type : string)
             (options : Magnet.Options.t),
         (forall m : Magnet.t,
             Magnet.constructor position type options = Normal m ->
             Magnet.type m = type)
         /\ (position <> None ->
             Magnet.Options.size options <> Magnet.Options.Nullish ->
             Magnet.Options.colors options <> Magnet.Options.Nullish ->
             exists m : Magnet.t,
               Magnet.constructor position type options = Normal m)
         /\ (forall name : string,
                Magnet.constructor position type options = Throw name ->
                name = "TypeError"%string
                /\ (position = None
                    \/ Magnet.Options.size options = Magnet.Options.Nullish
                    \/ Magnet.Options.colors options
                       = Magnet.Options.Nullish))).
Proof.
  split.
  - intros [position |] options; simpl; (split; [| split]).
    + intros p [= <-]. split; reflexivity.
    + intros _. eauto.
    + intros name H. discriminate H.
    + intros p H. discriminate H.
    + intros H. contradiction.
    + intros name [= <-]. split; reflexivity.
  - intros [position |] type options; unfold Magnet.constructor.
    + set (size := Magnet.Options.merged _ (Magnet.Options.size options)).
      set (colors := Magnet.Options.merged _ (Magnet.Options.colors options)).
      split; [| split].
      * intros m. destruct (Magnet.createMesh type size colors); simpl;
          [intros [= <-]; reflexivity | discriminate].
      * intros _ Hsize Hcolors.
        destruct size as [sz |] eqn:Es;
          [| apply merged_None in Es; contradiction].
        destruct colors as [cs |] eqn:Ec;
          [| apply merged_None in Ec; contradiction].
        destruct (createMesh_given type sz cs) as [group ->]. simpl. eauto.
      * intros name.
        destruct (createMesh_cases type size colors)
          as [[group ->] | [-> [E | E]]]; simpl; try discriminate;
          intros [= <-]; apply merged_None in E; auto.
    + split; [| split].
      * intros m H. discriminate H.
      * intros H. contradiction.
      * intros name [= <-]. auto.
Qed.

(** ** Magnet strength *)

Lemma setStrength_range (m : Magnet.t) (s : R) :
  0.1 <= Magnet.strength (Magnet.setStrength m s) <= 2.0.
Proof. simpl. apply clamp_bounds. lra. Qed.

(** C8: [setStrength] clamps, the constructor does not.  A magnet
    constructed with the option [strength: 5] has strength 5, outside
    [0.1, 2.0]; [setStrength (5)] on the same magnet gives 2.0. *)
Theorem constructor_strength_unclamped :
  exists m : Magnet.t,
    Magnet.new (Vector3.mk 0 0.5 0) "bar" (Magnet.Options.mk (Some 5))
    = Normal m
    /\ Magnet.strength m = 5
    /\ ~ (0.1 <= Magnet.strength m <= 2.0)
    /\ Magnet.strength (Magnet.setStrength m 5) = 2.0.
Proof.
  eexists. split; [reflexivity |]. simpl. repeat split.
  - lra.
  - unfold Utils.clamp, Rmin, Rmax. repeat destruct Rle_dec; lra.
Qed.

(** ** SimulationLoop *)

(** *** What one particle update does to the position *)

Lemma checkMagnetInteraction_keeps (p : particle) (ms : list Magnet.t) :
  IronParticle.position (IronParticle.checkMagnetInteraction p ms)
  = IronParticle.position p
  /\ IronParticle.radius (IronParticle.checkMagnetInteraction p ms)
     = IronParticle.radius p
  /\ IronParticle.isDead (IronParticle.checkMagnetInteraction p ms)
     = IronParticle.isDead p.
Proof.
  unfold IronParticle.checkMagnetInteraction.
  destruct (fold_left _ ms None) as [[d m] |]; [| now repeat split].
  repeat destruct Rlt_dec; now repeat split.
Qed.

Lemma checkGroundStick_keeps (p : particle) :
  IronParticle.position (IronParticle.checkGroundStick p)
  = IronParticle.position p
  /\ IronParticle.radius (IronParticle.checkGroundStick p)
     = IronParticle.radius p
  /\ IronParticle.isDead (IronParticle.checkGroundStick p)
     = IronParticle.isDead p.
Proof.
  unfold IronParticle.checkGroundStick.
  destruct Rle_dec; [destruct Rlt_dec |]; now repeat split.
Qed.

Lemma handleGroundCollision_keeps (p : particle) :
  IronParticle.radius (Physics.handleGroundCollision p) = IronParticle.radius p
  /\ IronParticle.isDead (Physics.handleGroundCollision p)
     = IronParticle.isDead p.
Proof.
  unfold Physics.handleGroundCollision.
  destruct Rle_dec; [destruct Rlt_dec |]; now split.
Qed.

Lemma updateParticle_keeps (p : particle) (ms : list Magnet.t) (dt : R) :
  IronParticle.radius (Physics.updateParticle p ms dt) = IronParticle.radius p
  /\ IronParticle.isDead (Physics.updateParticle p ms dt)
     = IronParticle.isDead p.
Proof.
  rewrite updateParticle_stages. unfold Stage.damp.
  cbn [IronParticle.radius IronParticle.isDead IronParticle.with_velocity].
  destruct (handleGroundCollision_keeps
              (Stage.move (Stage.limit (Stage.accelerate p ms dt)) dt))
    as [-> ->].
  unfold Stage.move, Stage.limit, Stage.accelerate.
  destruct Rgt_dec; now split.
Qed.

Lemma handleGroundCollision_position (p : particle) :
  IronParticle.position (Physics.handleGroundCollision p)
  = if Rle_dec (Vector3.y (IronParticle.position p)) 0
    then Vector3.set_y (IronParticle.position p) 0
    else IronParticle.position p.
Proof.
  unfold Physics.handleGroundCollision.
  destruct Rle_dec; [destruct Rlt_dec |]; reflexivity.
Qed.

Lemma limit_slow (p : particle) :
  Vector3.length (IronParticle.velocity p) <= 20 -> Stage.limit p = p.
Proof.
  intros H. unfold Stage.limit, Physics.maxVelocity.
  destruct Rgt_dec as [Hfast | _]; [lra | reflexivity].
Qed.

(** The position [updateParticle] leaves when the speed limit does not
    apply: the position moved by the new velocity, put back on the ground
    when it fell below it. *)
Lemma updateParticle_position (p : particle) (ms : list Magnet.t) (dt : R) :
  Vector3.length (IronParticle.velocity (Stage.accelerate p ms dt)) <= 20 ->
  let moved :=
    Vector3.add (IronParticle.position p)
      (Vector3.multiplyScalar
         (IronParticle.velocity (Stage.accelerate p ms dt)) dt) in
  IronParticle.position (Physics.updateParticle p ms dt)
  = if Rle_dec (Vector3.y moved) 0 then Vector3.set_y moved 0 else moved.
Proof.
  intros Hslow moved. rewrite updateParticle_stages.
  change (IronParticle.position
            (Physics.handleGroundCollision
               (Stage.move (Stage.limit (Stage.accelerate p ms dt)) dt))
          = if Rle_dec (Vector3.y moved) 0
            then Vector3.set_y moved 0 else moved).
  rewrite handleGroundCollision_position, (limit_slow _ Hslow).
  reflexivity.
Qed.

(** The update of a live particle that does not expire. *)
Lemma update_live (p : particle) (dt : R) (ms : list Magnet.t) :
  IronParticle.isDead p = false ->
  IronParticle.maxAge p = None ->
  let aged := IronParticle.with_age p (IronParticle.age p + dt) in
  let q := IronParticle.update p dt ms Physics.updateParticle in
  IronParticle.position q
  = IronParticle.position (Physics.updateParticle aged ms dt)
  /\ IronParticle.radius q = IronParticle.radius p
  /\ IronParticle.isDead q = false.
Proof.
  intros Hlive Hage aged q. unfold q, IronParticle.update.
  rewrite Hlive. unfold IronParticle.expired.
  cbn [IronParticle.maxAge IronParticle.with_age]. rewrite Hage.
  fold aged.
  cbn [IronParticle.position IronParticle.radius IronParticle.isDead
       IronParticle.with_needsUpdate].
  destruct (checkGroundStick_keeps
              (IronParticle.checkMagnetInteraction
                 (Physics.updateParticle aged ms dt) ms)) as (-> & -> & ->).
  destruct (checkMagnetInteraction_keeps
              (Physics.updateParticle aged ms dt) ms) as (-> & -> & ->).
  destruct (updateParticle_keeps aged ms dt) as [-> ->].
  repeat split. exact Hlive.
Qed.

(** [updateParticle] itself leaves every particle on or above the ground. *)
Lemma updateParticle_above_ground (p : particle) (ms : list Magnet.t) (dt : R) :
  0 <= Vector3.y (IronParticle.position (Physics.updateParticle p ms dt)).
Proof.
  rewrite updateParticle_stages.
  change (0 <= Vector3.y
                 (IronParticle.position
                    (Physics.handleGroundCollision
                       (Stage.move (Stage.limit (Stage.accelerate p ms dt))
                          dt)))).
  rewrite handleGroundCollision_position.
  destruct Rle_dec; [unfold Vector3.set_y; cbn [Vector3.y] |]; lra.
Qed.

(** *** The collision pass below the ground *)

Lemma handleParticleCollision_keeps (p1 p2 : particle) :
  IronParticle.isDead (fst (Physics.handleParticleCollision p1 p2))
  = IronParticle.isDead p1
  /\ IronParticle.isDead (snd (Physics.handleParticleCollision p1 p2))
     = IronParticle.isDead p2.
Proof.
  unfold Physics.handleParticleCollision.
  repeat (destruct Rlt_dec || destruct Rgt_dec); now split.
Qed.

Lemma distance_ge_dy (a b : vec) :
  Rabs (Vector3.y b - Vector3.y a) <= Utils.distance a b.
Proof.
  unfold Utils.distance. rewrite <- sqrt_Rsqr_abs.
  apply sqrt_le_1_alt.
  pose proof (Rle_0_sqr (Vector3.x b - Vector3.x a)).
  pose proof (Rle_0_sqr (Vector3.z b - Vector3.z a)).
  unfold Rsqr in *. simpl. lra.
Qed.

(** A particle lying on the ground that overlaps a particle above it is
    pushed below the ground by the separation. *)
Lemma handleParticleCollision_sinks (p1 p2 : particle) :
  Vector3.y (IronParticle.position p1) = 0 ->
  0 < Vector3.y (IronParticle.position p2) ->
  Utils.distance (IronParticle.position p1) (IronParticle.position p2)
  < IronParticle.radius p1 + IronParticle.radius p2 ->
  Vector3.y
    (IronParticle.position (fst (Physics.handleParticleCollision p1 p2))) < 0.
Proof.
  intros Hy1 Hy2 Hclose.
  pose proof (distance_ge_dy (IronParticle.position p1)
                (IronParticle.position p2)) as Hdy.
  rewrite Hy1, Rminus_0_r, Rabs_pos_eq in Hdy by lra.
  set (d := Utils.distance _ _) in *.
  assert (Hd : 0 < d) by lra.
  assert (Hy :
    Vector3.y
      (IronParticle.position (fst (Physics.handleParticleCollision p1 p2)))
    = 0 - Vector3.y (IronParticle.position p2) * (1 / d)
          * ((IronParticle.radius p1 + IronParticle.radius p2 - d) * 0.5)).
  { unfold Physics.handleParticleCollision. fold d.
    destruct (Rlt_dec d _) as [_ | Hn]; [| contradiction].
    destruct (Rgt_dec d 0) as [_ | Hn]; [| lra].
    destruct Rgt_dec;
      cbn [fst IronParticle.position IronParticle.with_position
             IronParticle.with_velocity];
      unfold Vector3.normalize; rewrite <- distance_length;
      rewrite (distance_sym (IronParticle.position p2)); fold d;
      (destruct (Req_dec_T d 0) as [E | _]; [lra |]);
      simpl; rewrite Hy1; ring. }
  rewrite Hy.
  assert (Hinv : 0 < 1 / d) by (apply Rdiv_lt_0_compat; lra).
  assert (0 < Vector3.y (IronParticle.position p2) * (1 / d)) by nra.
  assert (0 < (IronParticle.radius p1 + IronParticle.radius p2 - d) * 0.5)
    by lra.
  nra.
Qed.

(** *** One step over two particles *)

Lemma magnets_update (ms : list Magnet.t) (dt : R) :
  List.map (fun magnet => Magnet.update magnet dt) ms = ms.
Proof. apply map_id. Qed.

(** The step of an app that holds two particles, neither of which leaves
    the world or dies in the step: both are updated, the higher index
    first, the pair goes through the collision handler once, and nothing
    is cleaned up. *)
Lemma update_pair (app : App.t) (dt : R) (p1 p2 : particle) :
  App.particles app = [p1; p2] ->
  let q1 := IronParticle.update p1 dt (App.magnets app) Physics.updateParticle in
  let q2 := IronParticle.update p2 dt (App.magnets app) Physics.updateParticle in
  IronParticle.isOutOfBounds q1 = false ->
  IronParticle.isOutOfBounds q2 = false ->
  IronParticle.isDead q1 = false ->
  IronParticle.isDead q2 = false ->
  App.particles (App.update app dt)
  = [fst (Physics.handleParticleCollision q1 q2);
     snd (Physics.handleParticleCollision q1 q2)].
Proof.
  intros Hps q1 q2 Hin1 Hin2 Hlive1 Hlive2.
  destruct (handleParticleCollision_keeps q1 q2) as [Hk1 Hk2].
  rewrite Hlive1 in Hk1. rewrite Hlive2 in Hk2.
  destruct app as [ps ms running paused maxp pool]. simpl in Hps. subst ps.
  cbn [App.magnets] in q1, q2.
  set (state := fun ps => App.mk ps ms running paused maxp pool).
  assert (Hupdate : App.updateParticles (state [p1; p2]) dt = state [q1; q2]).
  { unfold App.updateParticles, state.
    cbn [App.particles List.length App.downFrom].
    assert (E : App.updateParticleAt dt (state [p1; p2]) 1 = state [p1; q2]).
    { unfold App.updateParticleAt, state.
      cbn [App.particles App.magnets nth_error]. fold q2. rewrite Hin2.
      reflexivity. }
    unfold state in E. rewrite E.
    unfold App.updateParticleAt.
    cbn [App.particles App.magnets nth_error]. fold q1. rewrite Hin1.
    reflexivity. }
  assert (Hcollide :
    App.handleParticleCollisions (state [q1; q2])
    = state [fst (Physics.handleParticleCollision q1 q2);
             snd (Physics.handleParticleCollision q1 q2)]).
  { unfold App.handleParticleCollisions, App.with_particles, state.
    cbn [App.particles App.magnets App.isRunning App.isPaused
         App.maxParticles App.particlePool List.length Nat.sub Nat.add seq
         fold_left].
    unfold App.collide. cbn [nth_error].
    destruct (Physics.handleParticleCollision q1 q2) as [r1 r2].
    reflexivity. }
  assert (Hclean :
    forall r1 r2 : particle,
      IronParticle.isDead r1 = false -> IronParticle.isDead r2 = false ->
      App.cleanupDeadParticles (state [r1; r2]) = state [r1; r2]).
  { intros r1 r2 H1 H2. unfold App.cleanupDeadParticles, state.
    cbn [App.particles List.length App.downFrom].
    assert (E : App.cleanupAt (state [r1; r2]) 1 = state [r1; r2]).
    { unfold App.cleanupAt, state. cbn [App.particles nth_error].
      rewrite H2. reflexivity. }
    unfold state in E. rewrite E.
    unfold App.cleanupAt. cbn [App.particles nth_error].
    rewrite H1. reflexivity. }
  unfold App.update. rewrite magnets_update.
  change (App.with_magnets (App.mk [p1; p2] ms running paused maxp pool)
            (App.magnets (App.mk [p1; p2] ms running paused maxp pool)))
    with (state [p1; p2]).
  cbv zeta. rewrite Hupdate.
  change (List.length (App.particles (state [q1; q2])) <? 100)%nat with true.
  cbv iota. rewrite Hcollide, Hclean by assumption.
  reflexivity.
Qed.

(** *** Far from the magnets *)

Lemma component_le_length (v : vec) :
  Rabs (Vector3.x v) <= Vector3.length v
  /\ Rabs (Vector3.y v) <= Vector3.length v
  /\ Rabs (Vector3.z v) <= Vector3.length v.
Proof.
  pose proof (Rle_0_sqr (Vector3.x v)).
  pose proof (Rle_0_sqr (Vector3.y v)).
  pose proof (Rle_0_sqr (Vector3.z v)).
  unfold Vector3.length.
  repeat split; rewrite <- sqrt_Rsqr_abs; apply sqrt_le_1_alt;
    unfold Rsqr in *; lra.
Qed.

Lemma normalize_components (v : vec) :
  Rabs (Vector3.x (Vector3.normalize v)) <= 1
  /\ Rabs (Vector3.y (Vector3.normalize v)) <= 1
  /\ Rabs (Vector3.z (Vector3.normalize v)) <= 1.
Proof.
  destruct (Req_dec_T (Vector3.length v) 0) as [E | Hne].
  - destruct (component_le_length v) as (Hx & Hy & Hz).
    rewrite E in Hx, Hy, Hz.
    pose proof (Rabs_pos (Vector3.x v)).
    pose proof (Rabs_pos (Vector3.y v)).
    pose proof (Rabs_pos (Vector3.z v)).
    unfold Vector3.normalize, Vector3.divideScalar, Vector3.multiplyScalar.
    destruct Req_dec_T; [| contradiction]. simpl.
    replace (1 / 1) with 1 by lra. rewrite !Rmult_1_r. lra.
  - rewrite <- (length_normalize v Hne). apply component_le_length.
Qed.

Lemma distance_ge_dx (a b : vec) :
  Rabs (Vector3.x b - Vector3.x a) <= Utils.distance a b.
Proof.
  unfold Utils.distance. rewrite <- sqrt_Rsqr_abs.
  apply sqrt_le_1_alt.
  pose proof (Rle_0_sqr (Vector3.y b - Vector3.y a)).
  pose proof (Rle_0_sqr (Vector3.z b - Vector3.z a)).
  unfold Rsqr in *. simpl. lra.
Qed.

Lemma bar_field_bounds (s t : vec) :
  0.3 <= Physics.calculateBarMagnetField s t <= 1.3.
Proof.
  unfold Physics.calculateBarMagnetField.
  set (a := _ * PI).
  pose proof (Rabs_pos (cos a)). pose proof (COS_bound a) as [Hlo Hhi].
  assert (Rabs (cos a) <= 1) by (apply Rabs_le; lra).
  lra.
Qed.

Lemma exp_nonpos_le_1 (a : R) : a <= 0 -> exp a <= 1.
Proof.
  intros [Hlt | ->].
  - rewrite <- exp_0. left. now apply exp_increasing.
  - rewrite exp_0. lra.
Qed.

Lemma ring_field_bounds (s t : vec) :
  0.2 <= Physics.calculateRingMagnetField s t <= 1.2.
Proof.
  unfold Physics.calculateRingMagnetField.
  set (r := sqrt _).
  pose proof (exp_pos (- (r - 1) ^ 2 * 2)).
  assert (exp (- (r - 1) ^ 2 * 2) <= 1).
  { apply exp_nonpos_le_1. pose proof (pow2_ge_0 (r - 1)). lra. }
  lra.
Qed.

(** At distance [D] or more along the x axis, a magnet of strength [k]
    pulls with at most [65 * k / D ^ 2] in each direction. *)
Lemma far_force_small (s t : vec) (k : R) (ty : string) (D B : R) :
  0.1 <= D ->
  D <= Rabs (Vector3.x t - Vector3.x s) ->
  0 <= k ->
  0.001 <= B ->
  65 * k <= B * (D * D) ->
  let F := Physics.calculateMagneticForce s t k ty in
  Rabs (Vector3.x F) <= B /\ Rabs (Vector3.y F) <= B /\ Rabs (Vector3.z F) <= B.
Proof.
  intros HD Hdx Hk HB Hfar F.
  pose proof (distance_ge_dx s t) as Hd.
  set (d := Utils.distance s t) in *.
  assert (Hd' : D <= d) by lra.
  unfold F. rewrite calculateMagneticForce_unfold by (fold d; lra). fold d.
  set (base := k * 50 / d ^ 2).
  assert (Hbase : 0 <= base /\ 13 * base <= 10 * B).
  { assert (Hdd : D * D <= d ^ 2) by (simpl; nra).
    assert (Hpos : 0 < d ^ 2) by (simpl; nra).
    unfold base. split.
    - apply Rmult_le_pos; [lra |]. left. now apply Rinv_0_lt_compat.
    - apply Rmult_le_reg_r with (d ^ 2); [assumption |].
      replace (13 * (k * 50 / d ^ 2) * d ^ 2) with (650 * k) by (field; lra).
      nra. }
  destruct Hbase as [Hb0 Hb1].
  set (v := if String.eqb ty "bar" then _ else _).
  assert (Hv : v <= B).
  { unfold v.
    pose proof (bar_field_bounds s t). pose proof (ring_field_bounds s t).
    destruct (String.eqb ty "bar"); [nra |].
    destruct (String.eqb ty "ring"); nra. }
  set (m := Utils.clamp v 0.001 10).
  assert (Hm : 0 <= m <= B).
  { pose proof (clamp_bounds v 0.001 10 ltac:(lra)). fold m in H.
    split; [lra |]. unfold m, Utils.clamp, Rmin, Rmax.
    repeat destruct Rle_dec; lra. }
  destruct (normalize_components (Vector3.subVectors s t)) as (Hx & Hy & Hz).
  set (n := Vector3.normalize (Vector3.subVectors s t)) in *.
  unfold Vector3.multiplyScalar. cbn [Vector3.x Vector3.y Vector3.z].
  rewrite !Rabs_mult, (Rabs_pos_eq m) by lra.
  pose proof (Rabs_pos (Vector3.x n)).
  pose proof (Rabs_pos (Vector3.y n)).
  pose proof (Rabs_pos (Vector3.z n)).
  repeat split; nra.
Qed.

Lemma length_le_bound (v : vec) (c : R) :
  Rabs (Vector3.x v) <= c -> Rabs (Vector3.y v) <= c ->
  Rabs (Vector3.z v) <= c ->
  Vector3.length v <= 2 * c.
Proof.
  intros Hx Hy Hz.
  pose proof (Rabs_pos (Vector3.x v)).
  assert (Hc : 0 <= 2 * c) by lra.
  rewrite <- (sqrt_square (2 * c)) by assumption.
  unfold Vector3.length. apply sqrt_le_1_alt.
  rewrite <- (Rabs_pos_eq c) in Hx, Hy, Hz by lra.
  apply Rsqr_le_abs_1 in Hx, Hy, Hz.
  unfold Rsqr in *. nra.
Qed.

(** *** The initial scene *)

Lemma setupInitialScene_new :
  App.setupInitialScene App.new
  = Normal (App.with_magnets App.new [barMagnet; ringMagnet]).
Proof. reflexivity. Qed.

Lemma Rabs_bound (a c : R) : Rabs a <= c -> - c <= a <= c.
Proof. unfold Rabs. destruct Rcase_abs; lra. Qed.

(** The force of the two magnets of the initial scene on a particle 14
    units along the x axis. *)
Lemma far_totalForce (p : particle) (y0 : R) :
  IronParticle.velocity p = Vector3.zero ->
  IronParticle.mass p = 0.1 ->
  IronParticle.position p = Vector3.mk 14 y0 0 ->
  let T := Stage.totalForce p [barMagnet; ringMagnet] in
  - 0.52 <= Vector3.x T <= 0.52
  /\ - 0.981 - 0.52 <= Vector3.y T <= - 0.981 + 0.52
  /\ - 0.52 <= Vector3.z T <= 0.52.
Proof.
  intros Hvel Hmass Hpos T. unfold T, Stage.totalForce.
  cbn [fold_left]. unfold Physics.addMagneticForce.
  rewrite Hpos, Hvel, Hmass.
  cbn [Magnet.position Magnet.strength Magnet.type barMagnet ringMagnet].
  destruct (far_force_small (Vector3.mk 0 0.5 0) (Vector3.mk 14 y0 0) 1.0 "bar"
              14 0.34) as (Hx1 & Hy1 & Hz1);
    try (cbn [Vector3.x]; rewrite ?Rabs_pos_eq; lra).
  destruct (far_force_small (Vector3.mk (-3) 0.3 0) (Vector3.mk 14 y0 0) 0.8
              "ring" 17 0.18) as (Hx2 & Hy2 & Hz2);
    try (cbn [Vector3.x]; rewrite ?Rabs_pos_eq; lra).
  set (F1 := Physics.calculateMagneticForce _ _ 1.0 "bar") in *.
  set (F2 := Physics.calculateMagneticForce _ _ 0.8 "ring") in *.
  clearbody F1 F2.
  apply Rabs_bound in Hx1, Hy1, Hz1, Hx2, Hy2, Hz2.
  unfold Physics.calculateAirResistance, Physics.calculateGravity,
    Physics.GRAVITY, Vector3.add, Vector3.multiplyScalar, Vector3.clone,
    Vector3.zero.
  cbn [Vector3.x Vector3.y Vector3.z].
  repeat split; lra.
Qed.

(** One sixtieth of a second for a particle at rest, 14 units along the x
    axis from the bar magnet: it moves sideways by at most 0.0015 and falls
    by 0.0012 to 0.0042, down to the ground at most. *)
Lemma far_update (p : particle) (y0 : R) :
  IronParticle.velocity p = Vector3.zero ->
  IronParticle.mass p = 0.1 ->
  IronParticle.position p = Vector3.mk 14 y0 0 ->
  exists dx ym dz : R,
    - 0.0015 <= dx <= 0.0015
    /\ y0 - 0.0042 <= ym <= y0 - 0.0012
    /\ - 0.0015 <= dz <= 0.0015
    /\ IronParticle.position
         (Physics.updateParticle p [barMagnet; ringMagnet] (1 / 60))
       = Vector3.mk (14 + dx) (if Rle_dec ym 0 then 0 else ym) dz.
Proof.
  intros Hvel Hmass Hpos.
  destruct (far_totalForce p y0 Hvel Hmass Hpos) as (Tx & Ty & Tz).
  set (T := Stage.totalForce p [barMagnet; ringMagnet]) in *.
  assert (Hv :
    IronParticle.velocity (Stage.accelerate p [barMagnet; ringMagnet] (1 / 60))
    = Vector3.mk (Vector3.x T * (1 / 0.1) * (1 / 60))
        (Vector3.y T * (1 / 0.1) * (1 / 60))
        (Vector3.z T * (1 / 0.1) * (1 / 60))).
  { unfold Stage.accelerate. fold T.
    cbn [IronParticle.velocity IronParticle.with_velocity].
    rewrite Hvel, Hmass.
    unfold Vector3.divideScalar.
    unfold Vector3.add, Vector3.multiplyScalar, Vector3.zero.
    cbn [Vector3.x Vector3.y Vector3.z]. f_equal; lra. }
  assert (Hslow :
    Vector3.length
      (IronParticle.velocity
         (Stage.accelerate p [barMagnet; ringMagnet] (1 / 60))) <= 20).
  { rewrite Hv. eapply Rle_trans; [apply (length_le_bound _ 1) | lra];
      cbn [Vector3.x Vector3.y Vector3.z]; apply Rabs_le; lra. }
  rewrite (updateParticle_position p _ _ Hslow), Hv, Hpos.
  unfold Vector3.add, Vector3.multiplyScalar, Vector3.set_y.
  cbn [Vector3.x Vector3.y Vector3.z].
  exists (Vector3.x T * (1 / 0.1) * (1 / 60) * (1 / 60)),
         (y0 + Vector3.y T * (1 / 0.1) * (1 / 60) * (1 / 60)),
         (Vector3.z T * (1 / 0.1) * (1 / 60) * (1 / 60)).
  repeat split; try lra.
  destruct Rle_dec; f_equal; lra.
Qed.

Lemma inside_bounds (p : particle) :
  Rabs (Vector3.x (IronParticle.position p)) <= 15 ->
  Rabs (Vector3.z (IronParticle.position p)) <= 15 ->
  - 5 <= Vector3.y (IronParticle.position p) <= 15 ->
  IronParticle.isOutOfBounds p = false.
Proof.
  intros Hx Hz Hy. unfold IronParticle.isOutOfBounds.
  repeat (destruct Rgt_dec || destruct Rlt_dec); try reflexivity; lra.
Qed.

Lemma distance_lt (a b : vec) (c : R) :
  0 < c ->
  (Vector3.x b - Vector3.x a) * (Vector3.x b - Vector3.x a)
  + (Vector3.y b - Vector3.y a) * (Vector3.y b - Vector3.y a)
  + (Vector3.z b - Vector3.z a) * (Vector3.z b - Vector3.z a) < c * c ->
  Utils.distance a b < c.
Proof.
  intros Hc H. rewrite <- (sqrt_square c) by lra.
  unfold Utils.distance. apply sqrt_lt_1_alt. split.
  - simpl. rewrite !Rmult_1_r. apply sum_squares_nonneg.
  - simpl. rewrite !Rmult_1_r. exact H.
Qed.

(** *** The ground invariant *)

(** C1: the step does not keep the particles above the ground.  In the
    initial scene, spawn one particle on the ground at (14, 0, 0) and one
    at (14, 0.03, 0), both with the default radius 0.02, and step by 1/60:
    the integration leaves the first on the ground and the second less
    than 0.04 above it, and the collision pass, which runs after the ground
    collision, separates the pair along the vertical and leaves the
    first particle, alive, below the ground. *)
Theorem ground_invariant_broken :
  exists (scene spawned1 spawned2 : App.t) (p1 p2 : particle),
    App.setupInitialScene App.new = Normal scene
    /\ App.addParticle scene (Vector3.mk 14 0 0) IronParticle.Options.empty
       = Normal (spawned1, p1)
    /\ App.addParticle spawned1 (Vector3.mk 14 0.03 0)
         IronParticle.Options.empty
       = Normal (spawned2, p2)
    /\ exists q1 q2 : particle,
         App.particles (App.update spawned2 (1 / 60)) = [q1; q2]
         /\ IronParticle.isDead q1 = false
         /\ Vector3.y (IronParticle.position q1) < 0.
Proof.
  do 5 eexists. split; [reflexivity |]. split; [reflexivity |].
  split; [reflexivity |].
  set (ms := [barMagnet; ringMagnet]).
  set (r1 := restingParticle (Vector3.mk 14 0 0)).
  set (r2 := restingParticle (Vector3.mk 14 0.03 0)).
  set (app := App.with_particles _ _).
  set (u1 := IronParticle.update r1 (1 / 60) ms Physics.updateParticle).
  set (u2 := IronParticle.update r2 (1 / 60) ms Physics.updateParticle).
  destruct (update_live r1 (1 / 60) ms eq_refl eq_refl) as (Hp1 & Hr1 & Hl1).
  destruct (update_live r2 (1 / 60) ms eq_refl eq_refl) as (Hp2 & Hr2 & Hl2).
  fold u1 in Hp1, Hr1, Hl1. fold u2 in Hp2, Hr2, Hl2.
  destruct (far_update (IronParticle.with_age r1 (IronParticle.age r1 + 1 / 60))
              0 eq_refl eq_refl eq_refl)
    as (dx1 & ym1 & dz1 & Hdx1 & Hym1 & Hdz1 & E1).
  destruct (far_update (IronParticle.with_age r2 (IronParticle.age r2 + 1 / 60))
              0.03 eq_refl eq_refl eq_refl)
    as (dx2 & ym2 & dz2 & Hdx2 & Hym2 & Hdz2 & E2).
  fold ms in E1, E2. rewrite E1 in Hp1. rewrite E2 in Hp2.
  destruct (Rle_dec ym1 0) as [_ | Hn]; [| lra].
  destruct (Rle_dec ym2 0) as [Hn | _]; [lra |].
  assert (Hin1 : IronParticle.isOutOfBounds u1 = false).
  { apply inside_bounds; rewrite Hp1; cbn [Vector3.x Vector3.y Vector3.z];
      try apply Rabs_le; lra. }
  assert (Hin2 : IronParticle.isOutOfBounds u2 = false).
  { apply inside_bounds; rewrite Hp2; cbn [Vector3.x Vector3.y Vector3.z];
      try apply Rabs_le; lra. }
  exists (fst (Physics.handleParticleCollision u1 u2)),
         (snd (Physics.handleParticleCollision u1 u2)).
  split; [| split].
  - apply (update_pair app (1 / 60) r1 r2); try assumption. reflexivity.
  - rewrite (proj1 (handleParticleCollision_keeps u1 u2)). exact Hl1.
  - apply handleParticleCollision_sinks.
    + rewrite Hp1. reflexivity.
    + rewrite Hp2. cbn [Vector3.y]. lra.
    + rewrite Hr1, Hr2. cbn [IronParticle.radius r1 r2 restingParticle].
      apply distance_lt; [lra |]. rewrite Hp1, Hp2.
      cbn [Vector3.x Vector3.y Vector3.z]. nra.
Qed.

(** * Further properties *)

(** ** The force field *)

Lemma dot_self (v : vec) :
  Vector3.dot v v = Vector3.length v * Vector3.length v.
Proof.
  unfold Vector3.length. rewrite sqrt_sqrt by apply sum_squares_nonneg.
  reflexivity.
Qed.

(** X1: the force is attractive.  From distance 0.1 on, the force on the
    particle has a positive component along the vector from the particle to
    the magnet, whatever the strength (negative or zero included) and the
    type of the magnet. *)
Theorem calculateMagneticForce_attracts :
  forall (sourcePos targetPos : vec) (magnetStrength : R) (magnetType : string),
    0.1 <= Utils.distance sourcePos targetPos ->
    0 < Vector3.dot
          (Physics.calculateMagneticForce sourcePos targetPos magnetStrength
             magnetType)
          (Vector3.subVectors sourcePos targetPos).
Proof.
  intros s t k ty Hd.
  destruct (calculateMagneticForce_far s t k ty Hd) as (m & [Hlo Hhi] & ->).
  unfold Physics.MIN_FORCE in Hlo. rewrite distance_length in Hd.
  set (v := Vector3.subVectors s t) in *.
  unfold Vector3.normalize.
  destruct (Req_dec_T (Vector3.length v) 0) as [E | _]; [lra |].
  replace (Vector3.dot
             (Vector3.multiplyScalar
                (Vector3.divideScalar v (Vector3.length v)) m) v)
    with (m * (1 / Vector3.length v) * Vector3.dot v v)
    by (unfold Vector3.dot, Vector3.divideScalar, Vector3.multiplyScalar;
        simpl; ring).
  rewrite dot_self.
  replace (m * (1 / Vector3.length v)
           * (Vector3.length v * Vector3.length v))
    with (m * Vector3.length v) by (field; lra).
  apply Rmult_lt_0_compat; lra.
Qed.

Lemma calculateMagneticForce_attracts_witness :
  0.1 <= Utils.distance (Vector3.mk 0 0 0) (Vector3.mk 1 0 0)
  /\ 0 < Vector3.dot
           (Physics.calculateMagneticForce (Vector3.mk 0 0 0)
              (Vector3.mk 1 0 0) (-3) "ring")
           (Vector3.subVectors (Vector3.mk 0 0 0) (Vector3.mk 1 0 0)).
Proof.
  assert (H : 0.1 <= Utils.distance (Vector3.mk 0 0 0) (Vector3.mk 1 0 0)).
  { rewrite example_distance. lra. }
  split; [exact H |].
  exact (calculateMagneticForce_attracts _ _ (-3) "ring" H).
Defined.

(** X2: the shape multipliers are bounded, wherever the particle is (on
    the magnet included): the bar multiplier lies in [0.3, 1.3] and the
    ring multiplier in [0.2, 1.2]. *)
Theorem shape_multipliers_bounded :
  forall magnetPos particlePos : vec,
    0.3 <= Physics.calculateBarMagnetField magnetPos particlePos <= 1.3
    /\ 0.2 <= Physics.calculateRingMagnetField magnetPos particlePos <= 1.2.
Proof.
  intros s t. split; [apply bar_field_bounds | apply ring_field_bounds].
Qed.

Lemma normalize_vertical (dy : R) :
  dy <> 0 ->
  Vector3.y (Vector3.normalize (Vector3.mk 0 dy 0)) = 1
  \/ Vector3.y (Vector3.normalize (Vector3.mk 0 dy 0)) = -1.
Proof.
  intros Hdy.
  assert (L : Vector3.length (Vector3.mk 0 dy 0) = Rabs dy).
  { unfold Vector3.length; simpl.
    replace (0 * 0 + dy * dy + 0 * 0) with (Rsqr dy) by (unfold Rsqr; ring).
    apply sqrt_Rsqr_abs. }
  unfold Vector3.normalize. rewrite L.
  pose proof (Rabs_pos_lt dy Hdy) as Hpos.
  destruct (Req_dec_T (Rabs dy) 0) as [E | _]; [lra |].
  unfold Vector3.divideScalar, Vector3.multiplyScalar; simpl.
  unfold Rabs in *. destruct (Rcase_abs dy); [right | left]; field; lra.
Qed.

(** X3: the bar multiplier takes its largest value 1.3 both on the axis
    through the poles (straight above or below the magnet) and in the
    whole horizontal plane through the magnet. *)
Theorem bar_field_axis_and_equator :
  forall (magnetPos : vec) (dx dy dz : R),
    Physics.calculateBarMagnetField magnetPos
      (Vector3.mk (Vector3.x magnetPos) (Vector3.y magnetPos + dy)
         (Vector3.z magnetPos)) = 1.3
    /\ Physics.calculateBarMagnetField magnetPos
         (Vector3.mk (Vector3.x magnetPos + dx) (Vector3.y magnetPos)
            (Vector3.z magnetPos + dz)) = 1.3.
Proof.
  intros s dx dy dz. unfold Physics.calculateBarMagnetField. split.
  - replace (Vector3.subVectors _ s) with (Vector3.mk 0 dy 0)
      by (unfold Vector3.subVectors, Vector3.sub; simpl; f_equal; ring).
    destruct (Req_dec_T dy 0) as [-> | Hdy].
    + assert (L : Vector3.length (Vector3.mk 0 0 0) = 0).
      { unfold Vector3.length; simpl.
        replace (0 * 0 + 0 * 0 + 0 * 0) with 0 by ring. apply sqrt_0. }
      unfold Vector3.normalize. rewrite L.
      destruct (Req_dec_T 0 0) as [_ | Hn]; [| contradiction].
      unfold Vector3.divideScalar, Vector3.multiplyScalar, Vector3.dot; simpl.
      replace ((0 * (1 / 1) * 0 + 0 * (1 / 1) * 1 + 0 * (1 / 1) * 0) * PI)
        with 0 by field.
      rewrite cos_0, Rabs_R1. lra.
    + set (n := Vector3.normalize (Vector3.mk 0 dy 0)).
      assert (Hn : Vector3.x n = 0 /\ Vector3.z n = 0).
      { unfold n, Vector3.normalize, Vector3.divideScalar,
          Vector3.multiplyScalar; simpl. split; ring. }
      destruct Hn as [Hx Hz].
      pose proof (normalize_vertical dy Hdy) as E. fold n in E. clearbody n.
      unfold Vector3.dot. cbn [Vector3.x Vector3.y Vector3.z].
      rewrite Hx, Hz. destruct E as [E | E]; rewrite E.
      * replace ((0 * 0 + 1 * 1 + 0 * 0) * PI) with PI by ring.
        rewrite cos_PI. unfold Rabs. destruct Rcase_abs; lra.
      * replace ((0 * 0 + -1 * 1 + 0 * 0) * PI) with (- PI) by ring.
        rewrite cos_neg, cos_PI. unfold Rabs. destruct Rcase_abs; lra.
  - set (n := Vector3.normalize _).
    assert (Hy : Vector3.y n = 0).
    { unfold n, Vector3.normalize, Vector3.divideScalar,
        Vector3.multiplyScalar, Vector3.subVectors, Vector3.sub; simpl.
      ring. }
    clearbody n. unfold Vector3.dot. cbn [Vector3.x Vector3.y Vector3.z].
    rewrite Hy.
    replace ((Vector3.x n * 0 + 0 * 1 + Vector3.z n * 0) * PI) with 0 by ring.
    rewrite cos_0, Rabs_R1. lra.
Qed.

(** ** Air resistance *)

(** X5: the air resistance opposes the motion.  Each component of the
    resistance has the sign opposite to that component of the velocity, or
    is zero, so its component along the velocity is never positive. *)
Theorem calculateAirResistance_opposes :
  forall velocity : vec,
    let resistance := Physics.calculateAirResistance velocity in
    Vector3.x resistance * Vector3.x velocity <= 0
    /\ Vector3.y resistance * Vector3.y velocity <= 0
    /\ Vector3.z resistance * Vector3.z velocity <= 0
    /\ Vector3.dot resistance velocity <= 0.
Proof.
  intros v resistance. unfold resistance.
  assert (Hc : 0 <= Physics.AIR_RESISTANCE)
    by (unfold Physics.AIR_RESISTANCE; lra).
  unfold Physics.calculateAirResistance, Vector3.clone, Vector3.dot,
    Vector3.multiplyScalar.
  cbn [Vector3.x Vector3.y Vector3.z].
  set (c := Physics.AIR_RESISTANCE) in *. clearbody c.
  pose proof (length_nonneg v) as Hl.
  set (l := Vector3.length v) in *. clearbody l.
  assert (Hcl : 0 <= c * l) by nra.
  assert (Hx : Vector3.x v * (- c * l) * Vector3.x v <= 0).
  { pose proof (Rle_0_sqr (Vector3.x v)) as Hsq. unfold Rsqr in Hsq. nra. }
  assert (Hy : Vector3.y v * (- c * l) * Vector3.y v <= 0).
  { pose proof (Rle_0_sqr (Vector3.y v)) as Hsq. unfold Rsqr in Hsq. nra. }
  assert (Hz : Vector3.z v * (- c * l) * Vector3.z v <= 0).
  { pose proof (Rle_0_sqr (Vector3.z v)) as Hsq. unfold Rsqr in Hsq. nra. }
  repeat split; lra.
Qed.

(** ** Ground contact *)

Lemma handleGroundCollision_bounce (p : particle) :
  Vector3.y (IronParticle.position p) <= 0 ->
  0 <= Vector3.y (IronParticle.velocity (Physics.handleGroundCollision p)).
Proof.
  intros Hy. unfold Physics.handleGroundCollision, Physics.restitution.
  destruct Rle_dec as [_ | Hn]; [| contradiction].
  cbn [IronParticle.velocity IronParticle.with_position].
  destruct (Rlt_dec (Vector3.y (IronParticle.velocity p)) 0); simpl; lra.
Qed.

(** X6: [updateParticle] leaves a particle of non-zero mass on or above
    the ground, and a particle it leaves on the ground is not moving
    downwards. *)
Theorem updateParticle_ground_contact :
  forall (p : particle) (magnets : list Magnet.t) (deltaTime : R),
    IronParticle.mass p <> 0 ->
    let q := Physics.updateParticle p magnets deltaTime in
    0 <= Vector3.y (IronParticle.position q)
    /\ (Vector3.y (IronParticle.position q) = 0 ->
        0 <= Vector3.y (IronParticle.velocity q)).
Proof.
  intros p ms dt _ q. unfold q. rewrite updateParticle_stages.
  set (m := Stage.move (Stage.limit (Stage.accelerate p ms dt)) dt).
  change (0 <= Vector3.y
                 (IronParticle.position (Physics.handleGroundCollision m))
          /\ (Vector3.y
                (IronParticle.position (Physics.handleGroundCollision m)) = 0 ->
              0 <= Vector3.y
                     (IronParticle.velocity (Physics.handleGroundCollision m))
                   * Physics.DAMPING)).
  rewrite handleGroundCollision_position.
  destruct (Rle_dec (Vector3.y (IronParticle.position m)) 0) as [Hy | Hy].
  - split; [unfold Vector3.set_y; cbn [Vector3.y]; lra |].
    intros _. pose proof (handleGroundCollision_bounce m Hy).
    unfold Physics.DAMPING. nra.
  - split; [lra |]. intros E. lra.
Qed.

Lemma updateParticle_ground_contact_witness :
  IronParticle.mass fallingParticle <> 0
  /\ 0 <= Vector3.y
            (IronParticle.position
               (Physics.updateParticle fallingParticle [] 1)).
Proof.
  assert (H : IronParticle.mass fallingParticle <> 0) by (simpl; lra).
  split; [exact H |].
  exact (proj1 (updateParticle_ground_contact fallingParticle [] 1 H)).
Defined.

(** ** Collisions of two particles *)

Lemma normalize_dot_self (v : vec) :
  Vector3.length v <> 0 ->
  Vector3.dot (Vector3.normalize v) (Vector3.normalize v) = 1.
Proof.
  intros Hne. rewrite dot_self, (length_normalize v Hne). ring.
Qed.

(** The velocities a collision leaves when the particles approach. *)
Lemma handleParticleCollision_velocities (p1 p2 : particle) :
  let d :=
    Utils.distance (IronParticle.position p1) (IronParticle.position p2) in
  let n :=
    Vector3.normalize
      (Vector3.subVectors (IronParticle.position p2)
         (IronParticle.position p1)) in
  let along :=
    Vector3.dot
      (Vector3.subVectors (IronParticle.velocity p1) (IronParticle.velocity p2))
      n in
  let impulse := 2 * along / (IronParticle.mass p1 + IronParticle.mass p2) in
  0 < d < IronParticle.radius p1 + IronParticle.radius p2 ->
  along <= 0 ->
  IronParticle.velocity (fst (Physics.handleParticleCollision p1 p2))
  = Vector3.sub (IronParticle.velocity p1)
      (Vector3.multiplyScalar n (impulse * IronParticle.mass p2))
  /\ IronParticle.velocity (snd (Physics.handleParticleCollision p1 p2))
     = Vector3.add (IronParticle.velocity p2)
         (Vector3.multiplyScalar n (impulse * IronParticle.mass p1)).
Proof.
  intros d n along impulse [Hpos Hclose] Halong.
  unfold Physics.handleParticleCollision. fold d.
  destruct (Rlt_dec d _) as [_ | Hn]; [| contradiction].
  destruct (Rgt_dec d 0) as [_ | Hn]; [| lra].
  cbn [IronParticle.velocity IronParticle.with_position]. fold n along.
  destruct (Rgt_dec along 0) as [Hgt | _]; [lra |].
  split; reflexivity.
Qed.

(** What a collision does to the velocities when it changes them. *)
Lemma elastic_exchange (v1 v2 n : vec) (m1 m2 : R) :
  m1 + m2 <> 0 ->
  Vector3.dot n n = 1 ->
  let along := Vector3.dot (Vector3.subVectors v1 v2) n in
  let impulse := 2 * along / (m1 + m2) in
  let v1' := Vector3.sub v1 (Vector3.multiplyScalar n (impulse * m2)) in
  let v2' := Vector3.add v2 (Vector3.multiplyScalar n (impulse * m1)) in
  Vector3.dot (Vector3.subVectors v1' v2') n = - along
  /\ m1 * Vector3.lengthSq v1' + m2 * Vector3.lengthSq v2'
     = m1 * Vector3.lengthSq v1 + m2 * Vector3.lengthSq v2.
Proof.
  intros Hm Hn along impulse v1' v2'.
  assert (Himp : impulse * (m1 + m2) = 2 * along)
    by (unfold impulse; field; assumption).
  clearbody impulse.
  assert (Halong :
    along
    = (Vector3.x v1 - Vector3.x v2) * Vector3.x n
      + (Vector3.y v1 - Vector3.y v2) * Vector3.y n
      + (Vector3.z v1 - Vector3.z v2) * Vector3.z n) by reflexivity.
  clearbody along.
  unfold Vector3.dot in Hn.
  unfold v1', v2', Vector3.dot, Vector3.lengthSq, Vector3.subVectors,
    Vector3.sub, Vector3.add, Vector3.multiplyScalar.
  cbn [Vector3.x Vector3.y Vector3.z].
  set (nn := Vector3.x n * Vector3.x n + Vector3.y n * Vector3.y n
             + Vector3.z n * Vector3.z n) in *.
  split.
  - transitivity (along - impulse * (m1 + m2) * nn);
      [rewrite Halong; unfold nn; ring | rewrite Himp, Hn; ring].
  - match goal with
    | |- ?lhs = ?rhs =>
        transitivity
          (rhs + impulse * m1 * m2 * (impulse * (m1 + m2) * nn - 2 * along))
    end;
      [rewrite Halong; unfold nn; ring | rewrite Himp, Hn; ring].
Qed.

Lemma collision_normal_unit (p1 p2 : particle) :
  0 < Utils.distance (IronParticle.position p1) (IronParticle.position p2) ->
  let n :=
    Vector3.normalize
      (Vector3.subVectors (IronParticle.position p2)
         (IronParticle.position p1)) in
  Vector3.dot n n = 1.
Proof.
  intros Hd n. apply normalize_dot_self.
  rewrite <- distance_length, distance_sym. lra.
Qed.

(** Over the reals, the impulse reverses the relative velocity along the
    normal. *)
Lemma handleParticleCollision_along (p1 p2 : particle) :
  0 < IronParticle.mass p1 ->
  0 < IronParticle.mass p2 ->
  0 < Utils.distance (IronParticle.position p1) (IronParticle.position p2)
    < IronParticle.radius p1 + IronParticle.radius p2 ->
  let normal :=
    Vector3.normalize
      (Vector3.subVectors (IronParticle.position p2)
         (IronParticle.position p1)) in
  let along (a b : particle) :=
    Vector3.dot
      (Vector3.subVectors (IronParticle.velocity a) (IronParticle.velocity b))
      normal in
  along p1 p2 <= 0 ->
  along (fst (Physics.handleParticleCollision p1 p2))
    (snd (Physics.handleParticleCollision p1 p2))
  = - along p1 p2.
Proof.
  intros Hm1 Hm2 Hd normal along Happroach. unfold along.
  destruct (handleParticleCollision_velocities p1 p2 Hd Happroach) as [-> ->].
  apply elastic_exchange; [lra |].
  apply collision_normal_unit. lra.
Qed.

(** X8: the impulse acts on the pairs that move apart.  With [normal]
    the normalized direction from particle 1 to particle 2 and
    [along = (velocity1 - velocity2) . normal], an overlapping pair of
    positive masses that separates along the normal at a rate that is not
    negligible ([- along] is at least a millionth of 1 plus the two
    speeds) leaves [handleParticleCollision] closing in: [along] is
    positive afterwards, and at least half as large as it was. *)
Theorem handleParticleCollision_reverses :
  forall particle1 particle2 : particle,
    0 < IronParticle.mass particle1 ->
    0 < IronParticle.mass particle2 ->
    0 < Utils.distance (IronParticle.position particle1)
          (IronParticle.position particle2)
      < IronParticle.radius particle1 + IronParticle.radius particle2 ->
    let normal :=
      Vector3.normalize
        (Vector3.subVectors (IronParticle.position particle2)
           (IronParticle.position particle1)) in
    let along (a b : particle) :=
      Vector3.dot
        (Vector3.subVectors (IronParticle.velocity a) (IronParticle.velocity b))
        normal in
    (1 + Vector3.length (IronParticle.velocity particle1)
     + Vector3.length (IronParticle.velocity particle2)) / 1000000
    <= - along particle1 particle2 ->
    let after := Physics.handleParticleCollision particle1 particle2 in
    0 < along (fst after) (snd after)
    /\ - along particle1 particle2 <= 2 * along (fst after) (snd after).
Proof.
  intros p1 p2 Hm1 Hm2 Hd normal along Hrate after.
  pose proof (length_nonneg (IronParticle.velocity p1)) as Hl1.
  pose proof (length_nonneg (IronParticle.velocity p2)) as Hl2.
  assert (Hle : along p1 p2 <= 0) by lra.
  pose proof (handleParticleCollision_along p1 p2 Hm1 Hm2 Hd Hle) as E.
  fold normal in E. cbv zeta in E. fold (along (fst after) (snd after)) in E.
  unfold after. unfold along in *. rewrite E. lra.
Qed.

Lemma close_pair_distance :
  Utils.distance (Vector3.mk 0 0 0) (Vector3.mk 0 0.01 0) = 0.01.
Proof.
  unfold Utils.distance; simpl.
  replace ((0 - 0) * ((0 - 0) * 1) + (0.01 - 0) * ((0.01 - 0) * 1)
           + (0 - 0) * ((0 - 0) * 1)) with (0.01 * 0.01) by lra.
  apply sqrt_square. lra.
Qed.

Lemma close_pair_normal :
  Vector3.normalize
    (Vector3.subVectors (Vector3.mk 0 0.01 0) (Vector3.mk 0 0 0))
  = Vector3.mk 0 1 0.
Proof.
  unfold Vector3.normalize.
  rewrite <- distance_length, distance_sym, close_pair_distance.
  destruct (Req_dec_T 0.01 0) as [E | _]; [lra |].
  unfold Vector3.divideScalar, Vector3.multiplyScalar; simpl.
  f_equal; lra.
Qed.

Lemma handleParticleCollision_reverses_witness :
  Vector3.dot
    (Vector3.subVectors (IronParticle.velocity fallingParticle)
       (IronParticle.velocity perchedParticle))
    (Vector3.normalize
       (Vector3.subVectors (IronParticle.position perchedParticle)
          (IronParticle.position fallingParticle))) = -1
  /\ 0 < Vector3.dot
           (Vector3.subVectors
              (IronParticle.velocity
                 (fst (Physics.handleParticleCollision fallingParticle
                         perchedParticle)))
              (IronParticle.velocity
                 (snd (Physics.handleParticleCollision fallingParticle
                         perchedParticle))))
           (Vector3.normalize
              (Vector3.subVectors (IronParticle.position perchedParticle)
                 (IronParticle.position fallingParticle))).
Proof.
  assert (Hm1 : 0 < IronParticle.mass fallingParticle) by (simpl; lra).
  assert (Hm2 : 0 < IronParticle.mass perchedParticle) by (simpl; lra).
  assert (Hd : 0 < Utils.distance (IronParticle.position fallingParticle)
                     (IronParticle.position perchedParticle)
               < IronParticle.radius fallingParticle
                 + IronParticle.radius perchedParticle).
  { simpl. rewrite close_pair_distance. lra. }
  assert (Hal :
    Vector3.dot
      (Vector3.subVectors (IronParticle.velocity fallingParticle)
         (IronParticle.velocity perchedParticle))
      (Vector3.normalize
         (Vector3.subVectors (IronParticle.position perchedParticle)
            (IronParticle.position fallingParticle))) = -1).
  { simpl IronParticle.position. rewrite close_pair_normal.
    unfold Vector3.dot; simpl. lra. }
  assert (L1 : Vector3.length (IronParticle.velocity fallingParticle) = 1).
  { unfold Vector3.length; simpl.
    replace (0 * 0 + -1 * -1 + 0 * 0) with 1 by lra. apply sqrt_1. }
  assert (L2 : Vector3.length (IronParticle.velocity perchedParticle) = 0).
  { unfold Vector3.length; simpl.
    replace (0 * 0 + 0 * 0 + 0 * 0) with 0 by lra. apply sqrt_0. }
  assert (Hrate :
    (1 + Vector3.length (IronParticle.velocity fallingParticle)
     + Vector3.length (IronParticle.velocity perchedParticle)) / 1000000
    <= - Vector3.dot
           (Vector3.subVectors (IronParticle.velocity fallingParticle)
              (IronParticle.velocity perchedParticle))
           (Vector3.normalize
              (Vector3.subVectors (IronParticle.position perchedParticle)
                 (IronParticle.position fallingParticle))))
    by (rewrite Hal, L1, L2; lra).
  split; [exact Hal |].
  exact (proj1 (handleParticleCollision_reverses fallingParticle
                  perchedParticle Hm1 Hm2 Hd Hrate)).
Defined.

(** X9: a closing pair keeps its velocities.  An overlapping pair with
    [along = (velocity1 - velocity2) . normal > 0], that is with particle 1
    closing in on particle 2 along the normal, is moved apart but leaves
    [handleParticleCollision] with both velocities as they were. *)
Theorem handleParticleCollision_closing :
  forall particle1 particle2 : particle,
    0 < Utils.distance (IronParticle.position particle1)
          (IronParticle.position particle2)
      < IronParticle.radius particle1 + IronParticle.radius particle2 ->
    0 < Vector3.dot
          (Vector3.subVectors (IronParticle.velocity particle1)
             (IronParticle.velocity particle2))
          (Vector3.normalize
             (Vector3.subVectors (IronParticle.position particle2)
                (IronParticle.position particle1))) ->
    let after := Physics.handleParticleCollision particle1 particle2 in
    IronParticle.velocity (fst after) = IronParticle.velocity particle1
    /\ IronParticle.velocity (snd after) = IronParticle.velocity particle2.
Proof.
  intros p1 p2 [Hpos Hclose] Hin after. unfold after.
  unfold Physics.handleParticleCollision.
  destruct Rlt_dec as [_ | Hn]; [| contradiction].
  destruct Rgt_dec as [_ | Hn]; [| lra].
  cbn [IronParticle.velocity IronParticle.with_position].
  destruct Rgt_dec as [_ | Hn]; [| lra].
  split; reflexivity.
Qed.

Lemma handleParticleCollision_closing_witness :
  0 < Vector3.dot
        (Vector3.subVectors (IronParticle.velocity risingParticle)
           (IronParticle.velocity perchedParticle))
        (Vector3.normalize
           (Vector3.subVectors (IronParticle.position perchedParticle)
              (IronParticle.position risingParticle)))
  /\ IronParticle.velocity
       (fst (Physics.handleParticleCollision risingParticle perchedParticle))
     = IronParticle.velocity risingParticle.
Proof.
  assert (Hd : 0 < Utils.distance (IronParticle.position risingParticle)
                     (IronParticle.position perchedParticle)
               < IronParticle.radius risingParticle
                 + IronParticle.radius perchedParticle).
  { simpl. rewrite close_pair_distance. lra. }
  assert (Hal :
    0 < Vector3.dot
          (Vector3.subVectors (IronParticle.velocity risingParticle)
             (IronParticle.velocity perchedParticle))
          (Vector3.normalize
             (Vector3.subVectors (IronParticle.position perchedParticle)
                (IronParticle.position risingParticle)))).
  { simpl IronParticle.position. rewrite close_pair_normal.
    unfold Vector3.dot; simpl. lra. }
  split; [exact Hal |].
  exact (proj1 (handleParticleCollision_closing risingParticle
                  perchedParticle Hd Hal)).
Defined.

(** ** The loops over the particle array *)

Lemma nth_error_middle {A : Type} (l done : list A) (a : A) :
  nth_error ((l ++ [a]) ++ done) (List.length l) = Some a.
Proof.
  rewrite <- app_assoc. rewrite nth_error_app2, Nat.sub_diag by lia.
  reflexivity.
Qed.

Lemma set_middle {A : Type} (l done : list A) (a b : A) :
  Array.set ((l ++ [a]) ++ done) (List.length l) b = l ++ b :: done.
Proof.
  rewrite <- app_assoc. simpl. induction l as [| c l IH]; simpl.
  - reflexivity.
  - now rewrite IH.
Qed.

Lemma splice1_middle {A : Type} (l done : list A) (a : A) :
  Array.splice1 ((l ++ [a]) ++ done) (List.length l) = l ++ done.
Proof.
  unfold Array.splice1. rewrite <- app_assoc. simpl.
  induction l as [| c l IH]; simpl.
  - reflexivity.
  - f_equal. exact IH.
Qed.

Lemma set_same {A : Type} (l : list A) (i : nat) (a : A) :
  nth_error l i = Some a -> Array.set l i a = l.
Proof.
  revert i. induction l as [| b l IH]; intros [| i] H; simpl in *;
    try discriminate; try congruence.
  f_equal. now apply IH.
Qed.

Lemma set_length {A : Type} (l : list A) (i : nat) (a : A) :
  List.length (Array.set l i a) = List.length l.
Proof.
  revert i. induction l as [| b l IH]; intros [| i]; simpl; auto.
Qed.

Lemma downFrom_invariant (I : App.t -> Prop) (body : App.t -> nat -> App.t) :
  (forall app i, I app -> I (body app i)) ->
  forall n app, I app -> I (App.downFrom n body app).
Proof.
  intros Hbody n. induction n as [| n IH]; intros app Happ; simpl; auto.
Qed.

(** A backwards loop whose body replaces the particle at its index by
    [step] of it and then removes it when [drop] says so: every particle is
    visited once, and the array it leaves holds the stepped particles that
    were not dropped, in their order. *)
Lemma sweep_particles (I : App.t -> Prop) (step : particle -> particle)
  (drop : particle -> bool) (body : App.t -> nat -> App.t) :
  (forall app i, I app -> I (body app i)) ->
  (forall app i p,
      I app -> nth_error (App.particles app) i = Some p ->
      App.particles (body app i)
      = if drop (step p) then Array.splice1 (App.particles app) i
        else Array.set (App.particles app) i (step p)) ->
  forall (l done : list particle) (app : App.t),
    I app ->
    App.particles app = l ++ done ->
    App.particles (App.downFrom (List.length l) body app)
    = filter (fun q => negb (drop q)) (List.map step l) ++ done.
Proof.
  intros Hinv Hbody l. induction l as [| p l IH] using rev_ind;
    intros done app Happ Hps.
  - simpl. exact Hps.
  - rewrite length_app, Nat.add_comm. simpl.
    assert (Hnth : nth_error (App.particles app) (List.length l) = Some p).
    { rewrite Hps. apply nth_error_middle. }
    pose proof (Hbody app (List.length l) p Happ Hnth) as Hstep.
    rewrite Hps, splice1_middle, set_middle in Hstep.
    rewrite map_app, filter_app. simpl.
    destruct (drop (step p)); simpl.
    + rewrite app_nil_r. apply IH; [now apply Hinv | exact Hstep].
    + rewrite <- app_assoc. simpl. apply IH; [now apply Hinv | exact Hstep].
Qed.

Lemma removeParticle_frame (app : App.t) (i : nat) :
  App.magnets (App.removeParticle app i) = App.magnets app
  /\ App.maxParticles (App.removeParticle app i) = App.maxParticles app.
Proof.
  unfold App.removeParticle.
  destruct nth_error; [destruct (_ <? 50)%nat |]; now split.
Qed.

Lemma removeParticle_pool (app : App.t) (i : nat) :
  (List.length (App.particlePool app) <= 50)%nat ->
  (List.length (App.particlePool (App.removeParticle app i)) <= 50)%nat.
Proof.
  intros H. unfold App.removeParticle.
  destruct nth_error; [| exact H].
  cbn [App.particlePool App.with_particles].
  destruct (Nat.ltb_spec (List.length (App.particlePool app)) 50); [| exact H].
  unfold Array.push. simpl. rewrite length_app. simpl. lia.
Qed.

Lemma nth_error_set {A : Type} (l : list A) (i : nat) (a b : A) :
  nth_error l i = Some a -> nth_error (Array.set l i b) i = Some b.
Proof.
  revert i. induction l as [| c l IH]; intros [| i] H; simpl in *;
    try discriminate; auto.
Qed.

Lemma splice1_set {A : Type} (l : list A) (i : nat) (b : A) :
  Array.splice1 (Array.set l i b) i = Array.splice1 l i.
Proof.
  unfold Array.splice1. revert i.
  induction l as [| c l IH]; intros [| i]; simpl; try reflexivity.
  f_equal. apply IH.
Qed.

Lemma updateParticleAt_particles (dt : R) (app : App.t) (i : nat)
  (p : particle) :
  nth_error (App.particles app) i = Some p ->
  let q := IronParticle.update p dt (App.magnets app) Physics.updateParticle in
  App.particles (App.updateParticleAt dt app i)
  = if IronParticle.isOutOfBounds q then Array.splice1 (App.particles app) i
    else Array.set (App.particles app) i q.
Proof.
  intros H q. unfold App.updateParticleAt. rewrite H. fold q.
  destruct (IronParticle.isOutOfBounds q); [| reflexivity].
  rewrite (removeParticle_particles _ i q).
  - cbn [App.particles App.with_particles]. apply splice1_set.
  - cbn [App.particles App.with_particles]. eapply nth_error_set; eauto.
Qed.

Lemma updateParticleAt_frame (dt : R) (app : App.t) (i : nat) :
  App.magnets (App.updateParticleAt dt app i) = App.magnets app
  /\ App.maxParticles (App.updateParticleAt dt app i) = App.maxParticles app.
Proof.
  unfold App.updateParticleAt. destruct nth_error as [p |]; [| now split].
  destruct IronParticle.isOutOfBounds; [| now split].
  destruct (removeParticle_frame
              (App.with_particles app
                 (Array.set (App.particles app) i
                    (IronParticle.update p dt (App.magnets app)
                       Physics.updateParticle))) i) as [-> ->].
  now split.
Qed.

Lemma updateParticles_particles (app : App.t) (dt : R) :
  App.particles (App.updateParticles app dt)
  = filter (fun q => negb (IronParticle.isOutOfBounds q))
      (List.map
         (fun p =>
            IronParticle.update p dt (App.magnets app) Physics.updateParticle)
         (App.particles app)).
Proof.
  unfold App.updateParticles.
  rewrite <- (app_nil_r (filter _ _)).
  apply (sweep_particles (fun a => App.magnets a = App.magnets app)).
  - intros a i Ha. rewrite (proj1 (updateParticleAt_frame dt a i)). exact Ha.
  - intros a i p Ha Hp. rewrite <- Ha.
    apply (updateParticleAt_particles dt a i p Hp).
  - reflexivity.
  - now rewrite app_nil_r.
Qed.

(** X11: the update loop visits every particle exactly once, although it
    removes particles from the array it walks: the array [updateParticles]
    leaves holds the update of each particle that is inside the world
    bounds after its update, in the original order. *)
Theorem updateParticles_each_once :
  forall (app : App.t) (deltaTime : R),
    App.particles (App.updateParticles app deltaTime)
    = filter (fun q => negb (IronParticle.isOutOfBounds q))
        (List.map
           (fun p =>
              IronParticle.update p deltaTime (App.magnets app)
                Physics.updateParticle)
           (App.particles app)).
Proof. intros app dt. apply updateParticles_particles. Qed.

Lemma cleanupAt_particles (app : App.t) (i : nat) (p : particle) :
  nth_error (App.particles app) i = Some p ->
  App.particles (App.cleanupAt app i)
  = if IronParticle.isDead p then Array.splice1 (App.particles app) i
    else Array.set (App.particles app) i p.
Proof.
  intros H. unfold App.cleanupAt. rewrite H.
  destruct (IronParticle.isDead p).
  - now apply removeParticle_particles with p.
  - symmetry. now apply set_same.
Qed.

Lemma cleanupDeadParticles_particles (app : App.t) :
  App.particles (App.cleanupDeadParticles app)
  = filter (fun q => negb (IronParticle.isDead q)) (App.particles app).
Proof.
  unfold App.cleanupDeadParticles.
  assert (H :
    App.particles
      (App.downFrom (List.length (App.particles app)) App.cleanupAt app)
    = filter (fun q => negb (IronParticle.isDead q))
        (List.map (fun p => p) (App.particles app)) ++ []).
  { apply (sweep_particles (fun _ => True) (fun p => p)); auto.
    - intros a i p _ Hp. now apply cleanupAt_particles.
    - now rewrite app_nil_r. }
  rewrite H, app_nil_r, map_id. reflexivity.
Qed.

(** X12: the cleanup removes the dead particles and nothing else: the
    array [cleanupDeadParticles] leaves holds the particles that are not
    dead, in their order. *)
Theorem cleanupDeadParticles_filters :
  forall app : App.t,
    App.particles (App.cleanupDeadParticles app)
    = filter (fun q => negb (IronParticle.isDead q)) (App.particles app).
Proof. intros app. apply cleanupDeadParticles_particles. Qed.

Lemma removeParticle_pool_length (app : App.t) (i : nat) (p : particle) :
  nth_error (App.particles app) i = Some p ->
  (List.length (App.particlePool app) <= 50)%nat ->
  List.length (App.particlePool (App.removeParticle app i))
  = Nat.min 50 (S (List.length (App.particlePool app))).
Proof.
  intros H Hpool. unfold App.removeParticle. rewrite H.
  cbn [App.particlePool App.with_particles].
  destruct (Nat.ltb_spec (List.length (App.particlePool app)) 50).
  - unfold Array.push.
    cbn [App.particlePool App.with_particlePool App.with_particles].
    rewrite length_app. cbn [List.length]. rewrite Nat.min_r; lia.
  - cbn [App.particlePool App.with_particles]. rewrite Nat.min_l; lia.
Qed.

Lemma clearParticles_pool (l : list particle) :
  forall app : App.t,
    App.particles app = l ->
    (List.length (App.particlePool app) <= 50)%nat ->
    List.length
      (App.particlePool (App.downFrom (List.length l) App.removeParticle app))
    = Nat.min 50 (List.length (App.particlePool app) + List.length l).
Proof.
  induction l as [| p l IH] using rev_ind; intros app Hps Hpool.
  - cbn [List.length App.downFrom]. rewrite Nat.add_0_r, Nat.min_r; lia.
  - replace (List.length (l ++ [p])) with (S (List.length l))
      by (rewrite length_app; simpl; lia).
    cbn [App.downFrom].
    assert (Hnth : nth_error (App.particles app) (List.length l) = Some p).
    { rewrite Hps, <- (app_nil_r (l ++ [p])). apply nth_error_middle. }
    rewrite IH.
    + rewrite (removeParticle_pool_length _ _ _ Hnth Hpool). lia.
    + rewrite (removeParticle_particles _ _ _ Hnth), Hps.
      rewrite <- (app_nil_r (l ++ [p])), splice1_middle. apply app_nil_r.
    + now apply removeParticle_pool.
Qed.

(** X13: [clearParticles] empties the array, whatever it held, and
    returns the particles to the pool as long as the pool has room: a pool
    of at most 50 particles holds [min (50, pooled + live)] afterwards. *)
Theorem clearParticles_empties :
  forall app : App.t,
    (List.length (App.particlePool app) <= 50)%nat ->
    App.particles (App.clearParticles app) = []
    /\ List.length (App.particlePool (App.clearParticles app))
       = Nat.min 50
           (List.length (App.particlePool app)
            + List.length (App.particles app)).
Proof.
  intros app Hpool. unfold App.clearParticles. split.
  - assert (H :
      App.particles
        (App.downFrom (List.length (App.particles app)) App.removeParticle app)
      = filter (fun q => negb true)
          (List.map (fun p => p) (App.particles app)) ++ []).
    { apply (sweep_particles (fun _ => True) (fun p => p) (fun _ => true));
        auto.
      - intros a i p _ Hp. now apply removeParticle_particles with p.
      - now rewrite app_nil_r. }
    rewrite H, app_nil_r. simpl.
    induction (List.map (fun p => p) (App.particles app)); simpl; auto.
  - now apply clearParticles_pool.
Qed.

Lemma clearParticles_empties_witness :
  (List.length (App.particlePool crowded) <= 50)%nat
  /\ App.particles (App.clearParticles crowded) = []
  /\ List.length (App.particlePool (App.clearParticles crowded)) = 50%nat.
Proof.
  assert (H : (List.length (App.particlePool crowded) <= 50)%nat)
    by (simpl; lia).
  split; [exact H |].
  destruct (clearParticles_empties crowded H) as [Hps Hpool].
  split; [exact Hps |].
  rewrite Hpool. unfold crowded.
  cbn [App.particles App.particlePool App.with_particles App.new].
  rewrite repeat_length. reflexivity.
Defined.

(** ** Spawning and the pool *)

Lemma pop_snoc {A : Type} (l : list A) (a : A) :
  Array.pop (l ++ [a]) = Some (a, l).
Proof.
  unfold Array.pop. rewrite rev_app_distr. simpl. now rewrite rev_involutive.
Qed.

Lemma pop_nil {A : Type} : Array.pop (@nil A) = None.
Proof. reflexivity. Qed.

(** The two ways of [addParticle]: a fresh particle when the pool is
    empty, the last pooled particle otherwise. *)
Lemma addParticle_cases (app : App.t) (position : vec)
  (options : IronParticle.Options.t) :
  (App.particlePool (roomMade app) = []
   /\ App.addParticle app position options
      = Normal
          (App.with_particles (roomMade app)
             (App.particles (roomMade app) ++ [constructed position options]),
           constructed position options))
  \/ (exists (r : particle) (rest : list particle),
         App.particlePool (roomMade app) = rest ++ [r]
         /\ App.addParticle app position options
            = Normal
                (App.with_particles
                   (App.with_particlePool (roomMade app) rest)
                   (App.particles (roomMade app) ++ [recycled r position]),
                 recycled r position)).
Proof.
  unfold App.addParticle. fold (roomMade app).
  destruct (App.particlePool (roomMade app)) as [| a l _] eqn:E
    using rev_ind.
  - left. split; [reflexivity |]. rewrite pop_nil. reflexivity.
  - right. exists a, l. split; [reflexivity |]. rewrite pop_snoc.
    reflexivity.
Qed.

Lemma removeOldestParticle_frame (app : App.t) :
  App.magnets (App.removeOldestParticle app) = App.magnets app
  /\ App.maxParticles (App.removeOldestParticle app) = App.maxParticles app
  /\ ((List.length (App.particlePool app) <= 50)%nat ->
      (List.length (App.particlePool (App.removeOldestParticle app)) <= 50)%nat).
Proof.
  unfold App.removeOldestParticle.
  destruct (App.particles app) as [| p0 rest]; [now repeat split |].
  destruct (removeParticle_frame app
              (App.scanOldest rest 1 0 (IronParticle.age p0))) as [-> ->].
  repeat split. apply removeParticle_pool.
Qed.

Lemma roomMade_frame (app : App.t) :
  App.magnets (roomMade app) = App.magnets app
  /\ App.maxParticles (roomMade app) = App.maxParticles app
  /\ ((List.length (App.particlePool app) <= 50)%nat ->
      (List.length (App.particlePool (roomMade app)) <= 50)%nat).
Proof.
  unfold roomMade. destruct (_ <=? _)%nat; [| now repeat split].
  apply removeOldestParticle_frame.
Qed.

Lemma roomMade_length (app : App.t) :
  (1 <= App.maxParticles app)%nat ->
  (List.length (App.particles app) <= App.maxParticles app)%nat ->
  S (List.length (App.particles (roomMade app)))
  = Nat.min (S (List.length (App.particles app))) (App.maxParticles app).
Proof.
  intros Hmax Hlen. unfold roomMade.
  destruct (Nat.leb_spec (App.maxParticles app)
              (List.length (App.particles app))) as [Hfull | Hroom].
  - destruct (removeOldestParticle_spec app) as (i & (p & Hp & _) & ->).
    { intros E. rewrite E in Hfull. simpl in Hfull. lia. }
    rewrite (splice1_length _ _ _ Hp).
    assert (i < List.length (App.particles app))%nat
      by (apply nth_error_Some; congruence).
    lia.
  - lia.
Qed.

Lemma addParticle_count :
  forall (app : App.t) (position : vec) (options : IronParticle.Options.t),
    (1 <= App.maxParticles app)%nat ->
    (List.length (App.particles app) <= App.maxParticles app)%nat ->
    exists (app' : App.t) (fresh : particle),
      App.addParticle app position options = Normal (app', fresh)
      /\ List.length (App.particles app')
         = Nat.min (S (List.length (App.particles app)))
             (App.maxParticles app)
      /\ App.maxParticles app' = App.maxParticles app.
Proof.
  intros app position options Hmax Hlen.
  pose proof (roomMade_length app Hmax Hlen) as Hroom.
  destruct (roomMade_frame app) as (_ & Hm & _).
  destruct (addParticle_cases app position options)
    as [[_ ->] | (r & rest & _ & ->)];
    eexists; eexists; (split; [reflexivity |]);
    cbn [App.particles App.maxParticles App.with_particles
         App.with_particlePool];
    rewrite length_app; cbn [List.length]; split; lia.
Qed.

(** X14: the population ceiling holds across [addParticle].  With a
    ceiling of at least 1 and at most that many live particles,
    [addParticle] returns and leaves [min (live + 1, ceiling)] live
    particles; the ceiling itself is unchanged. *)
Theorem addParticle_keeps_ceiling :
  forall (app : App.t) (position : vec) (options : IronParticle.Options.t),
    (1 <= App.maxParticles app)%nat ->
    (List.length (App.particles app) <= App.maxParticles app)%nat ->
    exists (app' : App.t) (fresh : particle),
      App.addParticle app position options = Normal (app', fresh)
      /\ List.length (App.particles app')
         = Nat.min (S (List.length (App.particles app)))
             (App.maxParticles app)
      /\ App.maxParticles app' = App.maxParticles app.
Proof. intros app position options. apply addParticle_count. Qed.

Lemma addParticle_keeps_ceiling_witness :
  (1 <= App.maxParticles crowded)%nat
  /\ (List.length (App.particles crowded) <= App.maxParticles crowded)%nat
  /\ exists (app' : App.t) (fresh : particle),
       App.addParticle crowded (Vector3.mk 0 1 0) IronParticle.Options.empty
       = Normal (app', fresh)
       /\ List.length (App.particles app')
          = Nat.min (S (List.length (App.particles crowded)))
              (App.maxParticles crowded)
       /\ App.maxParticles app' = App.maxParticles crowded.
Proof.
  assert (Hlen : List.length (App.particles crowded) = 1000%nat)
    by apply repeat_length.
  assert (H1 : (1 <= App.maxParticles crowded)%nat).
  { change (App.maxParticles crowded) with 1000%nat. lia. }
  assert (H2 : (List.length (App.particles crowded)
                <= App.maxParticles crowded)%nat).
  { rewrite Hlen. change (App.maxParticles crowded) with 1000%nat. lia. }
  split; [exact H1 |]. split; [exact H2 |].
  exact (addParticle_keeps_ceiling crowded (Vector3.mk 0 1 0)
           IronParticle.Options.empty H1 H2).
Defined.

(** X15: a pooled particle is reused as it is.  Below the ceiling and with
    a non-empty pool, [addParticle] takes the last pooled particle, puts it
    at the requested position, at rest, alive and of age 0, and ignores the
    options: the mass and the radius are those of the pooled particle. *)
Theorem addParticle_recycles :
  forall (app : App.t) (position : vec) (options : IronParticle.Options.t)
         (r : particle) (rest : list particle),
    (List.length (App.particles app) < App.maxParticles app)%nat ->
    App.particlePool app = rest ++ [r] ->
    exists app' : App.t,
      App.addParticle app position options
      = Normal (app', recycled r position)
      /\ App.particles app' = App.particles app ++ [recycled r position]
      /\ App.particlePool app' = rest
      /\ IronParticle.mass (recycled r position) = IronParticle.mass r
      /\ IronParticle.radius (recycled r position) = IronParticle.radius r
      /\ IronParticle.position (recycled r position) = position
      /\ IronParticle.velocity (recycled r position) = Vector3.zero
      /\ IronParticle.age (recycled r position) = 0
      /\ IronParticle.isDead (recycled r position) = false.
Proof.
  intros app position options r rest Hroom Hpool.
  assert (E : roomMade app = app).
  { unfold roomMade.
    destruct (Nat.leb_spec (App.maxParticles app)
                (List.length (App.particles app))); [lia | reflexivity]. }
  destruct (addParticle_cases app position options)
    as [[Hnil _] | (r' & rest' & Hpool' & ->)]; rewrite E in *.
  - rewrite Hpool in Hnil. destruct rest; discriminate Hnil.
  - rewrite Hpool in Hpool'. apply app_inj_tail in Hpool' as [-> ->].
    eexists. repeat split.
Qed.

Lemma addParticle_recycles_witness :
  exists app' : App.t,
    App.addParticle (App.with_particlePool App.new [risingParticle])
      (Vector3.mk 3 2 1) (IronParticle.Options.mk (Some 7) (Some 9))
    = Normal (app', recycled risingParticle (Vector3.mk 3 2 1))
    /\ App.particlePool app' = [].
Proof.
  destruct (addParticle_recycles
              (App.with_particlePool App.new [risingParticle])
              (Vector3.mk 3 2 1) (IronParticle.Options.mk (Some 7) (Some 9))
              risingParticle [])
    as (app' & Hadd & _ & Hpool & _).
  - simpl. lia.
  - reflexivity.
  - exists app'. split; assumption.
Defined.

Lemma removeOldestParticle_index (app : App.t) :
  App.particles app <> [] ->
  exists i : nat,
    oldest_first (App.particles app) i
    /\ App.removeOldestParticle app = App.removeParticle app i.
Proof.
  intros Hne. unfold App.removeOldestParticle.
  destruct (App.particles app) as [| p0 rest] eqn:E; [contradiction |].
  exists (App.scanOldest rest 1 0 (IronParticle.age p0)).
  split; [| reflexivity].
  apply (scanOldest_spec rest [p0] 0 (IronParticle.age p0)).
  - exists p0. split; reflexivity.
  - intros [| [| j]] q Hq; simpl in Hq; try discriminate Hq.
    injection Hq as <-. lra.
  - intros j q Hj. lia.
Qed.

(** X16: at the ceiling with an empty pool, the new particle is the
    evicted one.  [addParticle] returns the oldest particle itself, moved
    to the requested position and reset (at rest, age 0, alive); its mass
    and radius are the evicted particle's, not those of the options, and
    the pool is empty again. *)
Theorem addParticle_reuses_evicted :
  forall (app : App.t) (position : vec) (options : IronParticle.Options.t),
    (1 <= App.maxParticles app)%nat ->
    List.length (App.particles app) = App.maxParticles app ->
    App.particlePool app = [] ->
    exists (i : nat) (victim : particle) (app' : App.t),
      oldest_first (App.particles app) i
      /\ nth_error (App.particles app) i = Some victim
      /\ App.addParticle app position options
         = Normal (app', recycled victim position)
      /\ App.particles app'
         = Array.splice1 (App.particles app) i ++ [recycled victim position]
      /\ App.particlePool app' = [].
Proof.
  intros app position options Hmax Hlen Hpool.
  destruct (removeOldestParticle_index app) as (i & Hold & Hrm).
  { intros E. rewrite E in Hlen. simpl in Hlen. lia. }
  destruct Hold as (victim & Hv & Hold).
  assert (Hroom :
    roomMade app
    = App.with_particlePool
        (App.with_particles app (Array.splice1 (App.particles app) i))
        [victim]).
  { unfold roomMade. rewrite Hlen, Nat.leb_refl, Hrm.
    unfold App.removeParticle. rewrite Hv.
    cbn [App.particlePool App.with_particles]. rewrite Hpool. reflexivity. }
  destruct (addParticle_cases app position options)
    as [[Hnil _] | (r & rest & Hrest & ->)]; rewrite Hroom in *.
  - discriminate Hnil.
  - cbn [App.particlePool App.with_particlePool] in Hrest.
    change [victim] with ([] ++ [victim]) in Hrest.
    apply app_inj_tail in Hrest as [<- <-].
    exists i, victim. eexists. split; [exists victim; auto |].
    repeat split. exact Hv.
Qed.

Lemma addParticle_reuses_evicted_witness :
  exists (i : nat) (victim : particle) (app' : App.t),
    oldest_first (App.particles crowded) i
    /\ nth_error (App.particles crowded) i = Some victim
    /\ App.addParticle crowded (Vector3.mk 1 1 1)
         (IronParticle.Options.mk (Some 7) (Some 9))
       = Normal (app', recycled victim (Vector3.mk 1 1 1))
    /\ App.particles app'
       = Array.splice1 (App.particles crowded) i
         ++ [recycled victim (Vector3.mk 1 1 1)]
    /\ App.particlePool app' = [].
Proof.
  apply addParticle_reuses_evicted.
  - simpl. lia.
  - unfold crowded.
    cbn [App.particles App.maxParticles App.with_particles App.new].
    apply repeat_length.
  - reflexivity.
Defined.

(** *** What a step keeps *)

Lemma cleanupAt_frame (app : App.t) (i : nat) :
  App.magnets (App.cleanupAt app i) = App.magnets app
  /\ App.maxParticles (App.cleanupAt app i) = App.maxParticles app
  /\ ((List.length (App.particlePool app) <= 50)%nat ->
      (List.length (App.particlePool (App.cleanupAt app i)) <= 50)%nat).
Proof.
  unfold App.cleanupAt. destruct nth_error as [p |]; [| now repeat split].
  destruct (IronParticle.isDead p); [| now repeat split].
  destruct (removeParticle_frame app i) as [-> ->].
  repeat split. apply removeParticle_pool.
Qed.

Lemma updateParticleAt_pool (dt : R) (app : App.t) (i : nat) :
  (List.length (App.particlePool app) <= 50)%nat ->
  (List.length (App.particlePool (App.updateParticleAt dt app i)) <= 50)%nat.
Proof.
  intros H. unfold App.updateParticleAt.
  destruct nth_error as [p |]; [| exact H].
  destruct IronParticle.isOutOfBounds; [| exact H].
  apply removeParticle_pool. exact H.
Qed.

Lemma kept_refl (app : App.t) : kept app app.
Proof. now repeat split. Qed.

Lemma kept_trans (a b c : App.t) : kept a b -> kept b c -> kept a c.
Proof.
  intros (Hm1 & Hx1 & Hp1) (Hm2 & Hx2 & Hp2).
  repeat split; try congruence. auto.
Qed.

Lemma kept_downFrom (body : App.t -> nat -> App.t) :
  (forall a i, kept a (body a i)) ->
  forall n app, kept app (App.downFrom n body app).
Proof.
  intros Hbody n. induction n as [| n IH]; intros app; simpl.
  - apply kept_refl.
  - eapply kept_trans; [apply Hbody | apply IH].
Qed.

Lemma kept_updateParticles (app : App.t) (dt : R) :
  kept app (App.updateParticles app dt).
Proof.
  apply kept_downFrom. intros a i.
  destruct (updateParticleAt_frame dt a i) as [Hm Hx].
  repeat split; try assumption. apply updateParticleAt_pool.
Qed.

Lemma kept_cleanupDeadParticles (app : App.t) :
  kept app (App.cleanupDeadParticles app).
Proof. apply kept_downFrom. intros a i. apply cleanupAt_frame. Qed.

Lemma kept_clearParticles (app : App.t) : kept app (App.clearParticles app).
Proof.
  apply kept_downFrom. intros a i.
  destruct (removeParticle_frame a i) as [Hm Hx].
  repeat split; try assumption. apply removeParticle_pool.
Qed.

Lemma collide_length (ps : list particle) (i j : nat) :
  List.length (App.collide ps i j) = List.length ps.
Proof.
  unfold App.collide.
  destruct (nth_error ps i); [| reflexivity].
  destruct (nth_error ps j); [| reflexivity].
  destruct Physics.handleParticleCollision. now rewrite !set_length.
Qed.

Lemma fold_left_length {A B : Type} (f : list A -> B -> list A) (l : list B) :
  (forall ps b, List.length (f ps b) = List.length ps) ->
  forall ps, List.length (fold_left f l ps) = List.length ps.
Proof.
  intros Hf. induction l as [| b l IH]; intros ps; simpl; auto.
  now rewrite IH, Hf.
Qed.

Lemma handleParticleCollisions_length (app : App.t) :
  List.length (App.particles (App.handleParticleCollisions app))
  = List.length (App.particles app).
Proof.
  unfold App.handleParticleCollisions.
  cbn [App.particles App.with_particles].
  apply fold_left_length. intros ps i.
  apply fold_left_length. intros qs j. apply collide_length.
Qed.

Lemma filter_length_le {A : Type} (f : A -> bool) (l : list A) :
  (List.length (filter f l) <= List.length l)%nat.
Proof.
  induction l as [| a l IH]; simpl; [lia |]. destruct (f a); simpl; lia.
Qed.

Lemma update_kept (app : App.t) (dt : R) : kept app (App.update app dt).
Proof.
  unfold App.update. rewrite magnets_update.
  set (app0 := App.with_magnets app (App.magnets app)).
  assert (H0 : kept app app0) by (now repeat split).
  cbv zeta.
  set (app1 := App.updateParticles app0 dt).
  assert (H1 : kept app0 app1) by apply kept_updateParticles.
  set (app2 := if (_ <? 100)%nat then _ else app1).
  assert (H2 : kept app1 app2).
  { unfold app2. destruct (_ <? 100)%nat; [| apply kept_refl].
    now repeat split. }
  eapply kept_trans; [exact H0 |].
  eapply kept_trans; [exact H1 |].
  eapply kept_trans; [exact H2 |].
  apply kept_cleanupDeadParticles.
Qed.

(** X17: a step adds no particle and leaves no dead one.  After [update]
    the array holds at most as many particles as before, none of them
    dead, and the magnets and the ceiling are as they were. *)
Theorem update_leaves_the_living :
  forall (app : App.t) (deltaTime : R),
    (List.length (App.particles (App.update app deltaTime))
     <= List.length (App.particles app))%nat
    /\ Forall (fun q => IronParticle.isDead q = false)
         (App.particles (App.update app deltaTime))
    /\ App.magnets (App.update app deltaTime) = App.magnets app
    /\ App.maxParticles (App.update app deltaTime) = App.maxParticles app.
Proof.
  intros app dt.
  destruct (update_kept app dt) as (Hm & Hx & _).
  split; [| split; [| split; assumption]].
  - unfold App.update. rewrite magnets_update. cbv zeta.
    rewrite cleanupDeadParticles_particles.
    eapply Nat.le_trans; [apply filter_length_le |].
    set (app1 := App.updateParticles _ dt).
    assert (H1 : (List.length (App.particles app1)
                  <= List.length (App.particles app))%nat).
    { unfold app1. rewrite updateParticles_particles.
      eapply Nat.le_trans; [apply filter_length_le |].
      rewrite length_map. cbn [App.particles App.with_magnets]. lia. }
    destruct (_ <? 100)%nat; [| exact H1].
    now rewrite handleParticleCollisions_length.
  - unfold App.update. cbv zeta. rewrite cleanupDeadParticles_particles.
    apply Forall_forall. intros q Hq. apply filter_In in Hq as [_ Hq].
    now destruct (IronParticle.isDead q).
Qed.

(** X18: the pool never outgrows its capacity.  When the pool holds at
    most 50 particles, it still does after [removeParticle], [addParticle],
    a step, [clearParticles] and [reset]. *)
Theorem pool_capacity_kept :
  forall app : App.t,
    (List.length (App.particlePool app) <= 50)%nat ->
    (forall i : nat,
        (List.length (App.particlePool (App.removeParticle app i)) <= 50)%nat)
    /\ (forall (position : vec) (options : IronParticle.Options.t),
           exists (app' : App.t) (fresh : particle),
             App.addParticle app position options = Normal (app', fresh)
             /\ (List.length (App.particlePool app') <= 50)%nat)
    /\ (forall deltaTime : R,
           (List.length (App.particlePool (App.update app deltaTime))
            <= 50)%nat)
    /\ (List.length (App.particlePool (App.clearParticles app)) <= 50)%nat
    /\ (List.length (App.particlePool (App.reset app)) <= 50)%nat.
Proof.
  intros app Hpool. repeat split.
  - intros i. now apply removeParticle_pool.
  - intros position options.
    destruct (roomMade_frame app) as (_ & _ & Hroom).
    specialize (Hroom Hpool).
    destruct (addParticle_cases app position options)
      as [[_ ->] | (r & rest & Hrest & ->)];
      eexists; eexists; (split; [reflexivity |]);
      cbn [App.particlePool App.with_particles App.with_particlePool].
    + exact Hroom.
    + rewrite Hrest, length_app in Hroom. simpl in Hroom. lia.
  - intros dt. now apply (update_kept app dt).
  - now apply (kept_clearParticles app).
  - unfold App.reset, App.onMagnetStrengthChange.
    cbn [App.particlePool App.with_magnets].
    now apply (kept_clearParticles app).
Qed.

Lemma pool_capacity_kept_witness :
  (List.length (App.particlePool crowded) <= 50)%nat
  /\ (List.length (App.particlePool (App.clearParticles crowded)) <= 50)%nat.
Proof.
  assert (H : (List.length (App.particlePool crowded) <= 50)%nat)
    by (simpl; lia).
  split; [exact H |].
  exact (proj1 (proj2 (proj2 (proj2 (pool_capacity_kept crowded H))))).
Defined.

Lemma spawnLoop_count (count : nat) (draws : nat -> R) (position : vec) :
  forall (next : nat) (app : App.t),
    (1 <= App.maxParticles app)%nat ->
    (List.length (App.particles app) <= App.maxParticles app)%nat ->
    exists app' : App.t,
      App.spawnLoop count draws next position app = Normal app'
      /\ List.length (App.particles app')
         = Nat.min (List.length (App.particles app) + count)
             (App.maxParticles app)
      /\ App.maxParticles app' = App.maxParticles app.
Proof.
  induction count as [| count IH]; intros next app Hmax Hlen.
  - exists app. simpl. repeat split. rewrite Nat.add_0_r, Nat.min_l; lia.
  - cbn [App.spawnLoop].
    set (spawnPos := Vector3.add _ _).
    destruct (addParticle_count app spawnPos IronParticle.Options.empty
                Hmax Hlen) as (app1 & fresh & -> & Hlen1 & Hmax1).
    cbn [bind fst].
    destruct (IH (S (S (S next))) app1) as (app' & -> & Hlen' & Hmax');
      [lia | lia |].
    exists app'. repeat split; [| congruence].
    rewrite Hlen', Hlen1, Hmax1. lia.
Qed.

(** X19: a spawn event adds its particles up to the ceiling.  With a
    ceiling of at least 1 and at most that many live particles,
    [onIronParticleSpawn] returns, whatever [Math.random] draws, and leaves
    [min (live + count, ceiling)] live particles. *)
Theorem onIronParticleSpawn_count :
  forall (count : nat) (app : App.t) (position : vec) (draws : nat -> R),
    (1 <= App.maxParticles app)%nat ->
    (List.length (App.particles app) <= App.maxParticles app)%nat ->
    exists app' : App.t,
      App.onIronParticleSpawn app position count draws = Normal app'
      /\ List.length (App.particles app')
         = Nat.min (List.length (App.particles app) + count)
             (App.maxParticles app)
      /\ App.maxParticles app' = App.maxParticles app.
Proof.
  intros count app position draws Hmax Hlen.
  unfold App.onIronParticleSpawn. now apply spawnLoop_count.
Qed.

Lemma onIronParticleSpawn_count_witness :
  exists app' : App.t,
    App.onIronParticleSpawn crowded (Vector3.mk 0 0 0) 5 (fun _ => 0.5)
    = Normal app'
    /\ List.length (App.particles app') = 1000%nat.
Proof.
  destruct (onIronParticleSpawn_count 5 crowded (Vector3.mk 0 0 0)
              (fun _ => 0.5)) as (app' & Hspawn & Hlen & _).
  - simpl. lia.
  - unfold crowded.
    cbn [App.particles App.maxParticles App.with_particles App.new].
    rewrite repeat_length. lia.
  - exists app'. split; [exact Hspawn |].
    rewrite Hlen. unfold crowded.
    cbn [App.particles App.maxParticles App.with_particles App.new].
    rewrite repeat_length. reflexivity.
Defined.

(** ** The closest magnet *)



(** ** Magnet strength and the controls *)

Lemma clamp_fixed (v lo hi : R) : lo <= v <= hi -> Utils.clamp v lo hi = v.
Proof.
  intros H. unfold Utils.clamp, Rmin, Rmax. repeat destruct Rle_dec; lra.
Qed.

Lemma onMagnetStrengthChange_magnets (app : App.t) (s : R) :
  Forall (fun m => Magnet.strength m = Utils.clamp s 0.1 2.0)
    (App.magnets (App.onMagnetStrengthChange app s))
  /\ List.map Magnet.position (App.magnets (App.onMagnetStrengthChange app s))
     = List.map Magnet.position (App.magnets app)
  /\ List.map Magnet.type (App.magnets (App.onMagnetStrengthChange app s))
     = List.map Magnet.type (App.magnets app)
  /\ App.particles (App.onMagnetStrengthChange app s) = App.particles app.
Proof.
  unfold App.onMagnetStrengthChange.
  cbn [App.magnets App.particles App.with_magnets].
  repeat split.
  - apply Forall_forall. intros m Hm. apply in_map_iff in Hm as (m0 & <- & _).
    reflexivity.
  - rewrite map_map. reflexivity.
  - rewrite map_map. reflexivity.
Qed.

(** X21: the controls and the magnets agree on the strength.  After
    [setMagnetStrength (value)] the controller holds the value clamped to
    [0.1, 2.0] and every magnet has exactly that strength; positions, types
    and particles are untouched.  The slider handler [onStrengthChange]
    stores its value unclamped, while the magnets clamp it. *)
Theorem setMagnetStrength_agrees :
  forall (ui : UIControls.t) (app : App.t) (value : R),
    let set := UIControls.setMagnetStrength ui app value in
    let raw := UIControls.onStrengthChange ui app value in
    UIControls.magnetStrength (fst set) = Utils.clamp value 0.1 2.0
    /\ Forall
         (fun m => Magnet.strength m = UIControls.magnetStrength (fst set))
         (App.magnets (snd set))
    /\ List.map Magnet.position (App.magnets (snd set))
       = List.map Magnet.position (App.magnets app)
    /\ List.map Magnet.type (App.magnets (snd set))
       = List.map Magnet.type (App.magnets app)
    /\ App.particles (snd set) = App.particles app
    /\ UIControls.magnetStrength (fst raw) = value
    /\ Forall (fun m => Magnet.strength m = Utils.clamp value 0.1 2.0)
         (App.magnets (snd raw)).
Proof.
  intros ui app value set raw.
  unfold set, raw, UIControls.setMagnetStrength, UIControls.onStrengthChange.
  cbn [fst snd UIControls.magnetStrength].
  destruct (onMagnetStrengthChange_magnets app (Utils.clamp value 0.1 2.0))
    as (Hs & Hp & Ht & Hps).
  destruct (onMagnetStrengthChange_magnets app value) as (Hs' & _).
  rewrite (clamp_fixed (Utils.clamp value 0.1 2.0)) in Hs
    by (apply clamp_bounds; lra).
  repeat split; assumption.
Qed.

Lemma clearParticles_particles (app : App.t) :
  App.particles (App.clearParticles app) = [].
Proof.
  unfold App.clearParticles.
  assert (H :
    App.particles
      (App.downFrom (List.length (App.particles app)) App.removeParticle app)
    = filter (fun q => negb true)
        (List.map (fun p => p) (App.particles app)) ++ []).
  { apply (sweep_particles (fun _ => True) (fun p => p) (fun _ => true));
      auto.
    - intros a i p _ Hp. now apply removeParticle_particles with p.
    - now rewrite app_nil_r. }
  rewrite H, app_nil_r. simpl.
  induction (List.map (fun p => p) (App.particles app)); simpl; auto.
Qed.

Lemma reset_particles (app : App.t) : App.particles (App.reset app) = [].
Proof.
  unfold App.reset, App.onMagnetStrengthChange.
  cbn [App.particles App.with_magnets]. apply clearParticles_particles.
Qed.

Lemma reset_magnets (app : App.t) :
  Forall (fun m => 0.1 <= Magnet.strength m <= 2.0)
    (App.magnets (App.reset app)).
Proof.
  unfold App.reset.
  destruct (onMagnetStrengthChange_magnets
              (App.with_magnets (App.clearParticles app)
                 (App.forEachIndexed
                    (fun magnet index =>
                       match index with
                       | 0%nat => Magnet.teleportTo magnet (Vector3.mk 0 0.5 0)
                       | 1%nat =>
                           Magnet.teleportTo magnet (Vector3.mk (-3) 0.3 0)
                       | _ => magnet
                       end)
                    0 (App.magnets (App.clearParticles app)))) 1.0)
    as (Hs & _).
  eapply Forall_impl; [| exact Hs].
  intros m ->. apply clamp_bounds. lra.
Qed.

(** X22: no key takes a magnet out of the strength range or adds a
    particle.  When every magnet's strength lies in [0.1, 2.0], it still
    does after [onKeyDown], for every key code and modifier state, and the
    array holds at most as many particles as before. *)
Theorem onKeyDown_keeps_range :
  forall (ui : UIControls.t) (app : App.t) (code : string) (ctrl : bool),
    Forall (fun m => 0.1 <= Magnet.strength m <= 2.0) (App.magnets app) ->
    let after := snd (UIControls.onKeyDown ui app code ctrl) in
    Forall (fun m => 0.1 <= Magnet.strength m <= 2.0) (App.magnets after)
    /\ (List.length (App.particles after)
        <= List.length (App.particles app))%nat.
Proof.
  intros ui app code ctrl Hrange after.
  assert (Hset :
    forall (a : App.t) (v : R),
      (List.length (App.particles a) <= List.length (App.particles app))%nat ->
      Forall (fun m => 0.1 <= Magnet.strength m <= 2.0)
        (App.magnets (snd (UIControls.setMagnetStrength ui a v)))
      /\ (List.length
            (App.particles (snd (UIControls.setMagnetStrength ui a v)))
          <= List.length (App.particles app))%nat).
  { intros a v Ha.
    unfold UIControls.setMagnetStrength, UIControls.onStrengthChange.
    cbn [snd].
    destruct (onMagnetStrengthChange_magnets a (Utils.clamp v 0.1 2.0))
      as (Hs & _ & _ & ->).
    split; [| exact Ha].
    eapply Forall_impl; [| exact Hs].
    intros m ->. apply clamp_bounds. lra. }
  unfold after, UIControls.onKeyDown.
  destruct (String.eqb code "Space").
  { unfold UIControls.onClearParticles. cbn [snd].
    rewrite clearParticles_particles.
    rewrite (proj1 (kept_clearParticles app)).
    split; [exact Hrange | simpl; lia]. }
  destruct (String.eqb code "KeyR").
  { destruct ctrl; [| split; [exact Hrange | cbn [snd]; lia]].
    unfold UIControls.onReset, UIControls.resetUI.
    apply Hset. rewrite reset_particles. simpl. lia. }
  unfold UIControls.adjustMagnetStrength.
  repeat (destruct (String.eqb code _); [apply Hset; lia |]).
  split; [exact Hrange | cbn [snd]; lia].
Qed.

Lemma onKeyDown_keeps_range_witness :
  Forall (fun m => 0.1 <= Magnet.strength m <= 2.0)
    (App.magnets (App.with_magnets App.new [barMagnet; ringMagnet]))
  /\ Forall (fun m => 0.1 <= Magnet.strength m <= 2.0)
       (App.magnets
          (snd (UIControls.onKeyDown UIControls.new
                  (App.with_magnets App.new [barMagnet; ringMagnet])
                  "ArrowUp" false))).
Proof.
  assert (H : Forall (fun m => 0.1 <= Magnet.strength m <= 2.0)
                (App.magnets
                   (App.with_magnets App.new [barMagnet; ringMagnet]))).
  { repeat constructor; simpl; lra. }
  split; [exact H |].
  exact (proj1 (onKeyDown_keeps_range UIControls.new _ "ArrowUp" false H)).
Defined.

(** X23: [reset] brings the two magnets back to their first positions,
    but not to their first strengths.  On an app with two magnets it
    empties the array, puts the first magnet at (0, 0.5, 0) and the second
    at (-3, 0.3, 0), keeps their types, and sets both strengths to 1.0,
    where [setupInitialScene] gave the second magnet 0.8. *)
Theorem reset_two_magnets :
  forall (app : App.t) (m0 m1 : Magnet.t),
    App.magnets app = [m0; m1] ->
    App.particles (App.reset app) = []
    /\ List.map Magnet.position (App.magnets (App.reset app))
       = [Vector3.mk 0 0.5 0; Vector3.mk (-3) 0.3 0]
    /\ List.map Magnet.strength (App.magnets (App.reset app)) = [1.0; 1.0]
    /\ List.map Magnet.type (App.magnets (App.reset app))
       = [Magnet.type m0; Magnet.type m1].
Proof.
  intros app m0 m1 Hms. split; [apply reset_particles |].
  unfold App.reset, App.onMagnetStrengthChange.
  cbn [App.magnets App.with_magnets].
  rewrite (proj1 (kept_clearParticles app)), Hms.
  cbn [App.forEachIndexed List.map Magnet.position Magnet.strength
       Magnet.type Magnet.setStrength Magnet.teleportTo].
  rewrite (clamp_fixed 1.0) by lra. repeat split.
Qed.

Lemma reset_two_magnets_witness :
  App.magnets (App.with_magnets App.new [barMagnet; ringMagnet])
  = [barMagnet; ringMagnet]
  /\ Magnet.strength ringMagnet = 0.8
  /\ List.map Magnet.strength
       (App.magnets
          (App.reset (App.with_magnets App.new [barMagnet; ringMagnet])))
     = [1.0; 1.0].
Proof.
  assert (H : App.magnets (App.with_magnets App.new [barMagnet; ringMagnet])
              = [barMagnet; ringMagnet]) by reflexivity.
  split; [exact H |]. split; [reflexivity |].
  exact (proj1 (proj2 (proj2 (reset_two_magnets _ _ _ H)))).
Defined.

(** ** Forces and impulses applied from outside *)

(** The result of [updateParticle] is fixed by the position, the velocity
    and the mass of the particle. *)
Lemma updateParticle_inputs (p p' : particle) (ms : list Magnet.t) (dt : R) :
  IronParticle.position p = IronParticle.position p' ->
  IronParticle.velocity p = IronParticle.velocity p' ->
  IronParticle.mass p = IronParticle.mass p' ->
  IronParticle.position (Physics.updateParticle p ms dt)
  = IronParticle.position (Physics.updateParticle p' ms dt)
  /\ IronParticle.velocity (Physics.updateParticle p ms dt)
     = IronParticle.velocity (Physics.updateParticle p' ms dt).
Proof.
  intros Hpos Hvel Hmass. rewrite !updateParticle_stages.
  set (q := Stage.move (Stage.limit (Stage.accelerate p ms dt)) dt).
  set (q' := Stage.move (Stage.limit (Stage.accelerate p' ms dt)) dt).
  assert (Hms : Forall2 same_magnet ms ms).
  { induction ms; constructor; auto. now repeat split. }
  assert (Hq : IronParticle.position q = IronParticle.position q'
               /\ IronParticle.velocity q = IronParticle.velocity q').
  { unfold q, q', Stage.move, Stage.limit, Stage.accelerate.
    rewrite (totalForce_inputs p p' ms ms) by assumption.
    cbn [IronParticle.velocity IronParticle.with_velocity].
    rewrite Hvel, Hmass.
    destruct Rgt_dec; simpl; rewrite ?Hpos, ?Hvel; now split. }
  destruct Hq as [Hqp Hqv].
  destruct (handleGroundCollision_inputs q q' Hqp Hqv) as [Hgp Hgv].
  unfold Stage.damp. simpl. rewrite Hgp, Hgv. now split.
Qed.

(** X24: a force given to [applyForce] is never felt.  [applyForce] adds
    [force / mass] to the [acceleration] field and touches neither the
    position nor the velocity; [updateParticle] does not read that field,
    so it leaves the same position and velocity with the force as
    without it. *)
Theorem applyForce_ignored :
  forall (p : particle) (force : vec) (magnets : list Magnet.t)
         (deltaTime : R),
    IronParticle.mass p <> 0 ->
    IronParticle.position (IronParticle.applyForce p force)
    = IronParticle.position p
    /\ IronParticle.velocity (IronParticle.applyForce p force)
       = IronParticle.velocity p
    /\ IronParticle.position
         (Physics.updateParticle (IronParticle.applyForce p force) magnets
            deltaTime)
       = IronParticle.position (Physics.updateParticle p magnets deltaTime)
    /\ IronParticle.velocity
         (Physics.updateParticle (IronParticle.applyForce p force) magnets
            deltaTime)
       = IronParticle.velocity (Physics.updateParticle p magnets deltaTime).
Proof.
  intros p v ms dt _.
  split; [reflexivity |]. split; [reflexivity |].
  apply updateParticle_inputs; reflexivity.
Qed.

Lemma applyForce_ignored_witness :
  IronParticle.mass risingParticle <> 0
  /\ IronParticle.velocity
       (Physics.updateParticle
          (IronParticle.applyForce risingParticle (Vector3.mk 1 2 3)) [] 0)
     = IronParticle.velocity (Physics.updateParticle risingParticle [] 0).
Proof.
  assert (H : IronParticle.mass risingParticle <> 0) by (simpl; lra).
  split; [exact H |].
  exact (proj2 (proj2 (proj2 (applyForce_ignored risingParticle
                                 (Vector3.mk 1 2 3) [] 0 H)))).
Defined.

(** ** Utils *)

(** X27: the random helpers stay within their bounds.  For a draw in
    [0, 1), [random (min, max)] is at least [min] when [min <= max], and
    [randomInt (min, max)] is an integer in [min, max] when [min <= max]. *)
Theorem random_within_bounds :
  forall draw : R,
    0 <= draw < 1 ->
    (forall min max : R, min <= max -> min <= Utils.random draw min max)
    /\ (forall min max : Z,
           (min <= max)%Z ->
           (min <= Utils.randomInt draw min max <= max)%Z).
Proof.
  intros draw [H0 H1]. split.
  - intros lo hi Hle. unfold Utils.random. nra.
  - intros lo hi Hle. unfold Utils.randomInt.
    set (n := (hi - lo + 1)%Z).
    assert (Hn : 1 <= IZR n) by (apply IZR_le; unfold n; lia).
    destruct (base_Int_part (draw * IZR n)) as [Hlow Hup].
    set (k := Int_part (draw * IZR n)) in *.
    assert (Hk0 : (0 <= k)%Z).
    { apply le_IZR. assert (0 <= draw * IZR n) by nra.
      assert (-1 < IZR k) by lra.
      assert (Hlt : (-1 < k)%Z) by (apply lt_IZR; exact H2).
      apply IZR_le. lia. }
    assert (Hk1 : (k < n)%Z).
    { apply lt_IZR. assert (draw * IZR n < IZR n) by nra. lra. }
    unfold n in Hk1. lia.
Qed.

Lemma random_within_bounds_witness :
  0 <= 0.5 < 1
  /\ (3 <= Utils.randomInt 0.5 3 8 <= 8)%Z.
Proof.
  assert (H : 0 <= 0.5 < 1) by lra.
  split; [exact H |].
  exact (proj2 (random_within_bounds 0.5 H) 3%Z 8%Z ltac:(lia)).
Defined.

(** *** Colours *)

Lemma toInt32_small (n : Z) :
  (- 2 ^ 31 <= n < 2 ^ 31)%Z -> Utils.toInt32 n = n.
Proof.
  intros H. unfold Utils.toInt32. rewrite Z.mod_small; lia.
Qed.

Lemma lor_disjoint (hi lo k : Z) :
  (0 <= k)%Z -> (0 <= lo < 2 ^ k)%Z ->
  Z.lor (hi * 2 ^ k) lo = (hi * 2 ^ k + lo)%Z.
Proof.
  intros Hk Hlo.
  assert (Hland : Z.land (hi * 2 ^ k) lo = 0%Z).
  { apply Z.bits_inj'. intros n Hn. rewrite Z.land_spec, Z.bits_0.
    destruct (Z.lt_ge_cases n k) as [Hlt | Hge].
    - now rewrite Z.mul_pow2_bits_low.
    - assert (Z.testbit lo n = false); [| rewrite H; apply andb_false_r].
      destruct (Z.eq_dec lo 0) as [-> | Hne]; [apply Z.bits_0 |].
      apply Z.bits_above_log2; [lia |].
      apply Z.log2_lt_pow2; [lia |].
      assert (2 ^ k <= 2 ^ n)%Z by (apply Z.pow_le_mono_r; lia). lia. }
  rewrite <- Z.lxor_lor by exact Hland.
  symmetry. now apply Z.add_nocarry_lxor.
Qed.

(** X28: [rgbToHex] packs three channels into one number and loses
    nothing.  For integer channels from 0 to 255 the result is
    [r * 65536 + g * 256 + b], a number below 2^24, from which each
    channel is recovered by division and remainder. *)
Theorem rgbToHex_round_trip :
  forall r g b : Z,
    (0 <= r <= 255)%Z -> (0 <= g <= 255)%Z -> (0 <= b <= 255)%Z ->
    let hex := Utils.rgbToHex r g b in
    (hex = r * 65536 + g * 256 + b
     /\ 0 <= hex < 2 ^ 24
     /\ hex / 65536 = r
     /\ (hex / 256) mod 256 = g
     /\ hex mod 256 = b)%Z.
Proof.
  intros r g b Hr Hg Hb hex.
  assert (E : hex = (r * 65536 + g * 256 + b)%Z).
  { unfold hex, Utils.rgbToHex, Utils.bitOr, Utils.shiftLeft.
    change (Z.land 16 31) with 16%Z. change (Z.land 8 31) with 8%Z.
    rewrite !Z.shiftl_mul_pow2 by lia.
    pose proof (lor_disjoint r (g * 256) 16) as H1.
    pose proof (lor_disjoint (r * 256 + g) b 8) as H2.
    change (2 ^ 16)%Z with 65536%Z in *. change (2 ^ 8)%Z with 256%Z in *.
    rewrite (toInt32_small r), (toInt32_small g), (toInt32_small b) by lia.
    rewrite !(toInt32_small (r * 65536)), !(toInt32_small (g * 256)) by lia.
    rewrite H1 by lia. rewrite toInt32_small by lia.
    replace (r * 65536 + g * 256)%Z with ((r * 256 + g) * 256)%Z by lia.
    rewrite H2 by lia. lia. }
  rewrite E. repeat split; try lia.
  - symmetry. apply Z.div_unique with (g * 256 + b)%Z; lia.
  - replace ((r * 65536 + g * 256 + b) / 256)%Z with (r * 256 + g)%Z
      by (apply Z.div_unique with b; lia).
    symmetry. apply Z.mod_unique with r; lia.
  - symmetry. apply Z.mod_unique with (r * 256 + g)%Z; lia.
Qed.

Lemma rgbToHex_round_trip_witness :
  (Utils.rgbToHex 255 68 68 = 255 * 65536 + 68 * 256 + 68)%Z.
Proof.
  exact (proj1 (rgbToHex_round_trip 255 68 68 ltac:(lia) ltac:(lia)
                  ltac:(lia))).
Defined.

(** ** Field lines *)

Lemma onRay_distance (m : vec) (a r : R) :
  0 <= r -> Utils.distance m (onRay m a r) = r.
Proof.
  intros Hr. unfold Utils.distance, onRay. cbn [Vector3.x Vector3.y Vector3.z].
  replace ((Vector3.x m + cos a * r - Vector3.x m) ^ 2
           + (Vector3.y m - Vector3.y m) ^ 2
           + (Vector3.z m + sin a * r - Vector3.z m) ^ 2)
    with (r * r * (Rsqr (sin a) + Rsqr (cos a))) by (unfold Rsqr; ring).
  rewrite sin2_cos2, Rmult_1_r. now apply sqrt_square.
Qed.

Lemma onRay_direction (m : vec) (a r : R) :
  0 < r ->
  Vector3.normalize (Vector3.subVectors m (onRay m a r))
  = Vector3.mk (- cos a) 0 (- sin a).
Proof.
  intros Hr. unfold Vector3.normalize.
  rewrite <- distance_length, onRay_distance by lra.
  destruct (Req_dec_T r 0) as [E | _]; [lra |].
  unfold Vector3.divideScalar, Vector3.multiplyScalar, Vector3.subVectors,
    Vector3.sub, onRay.
  cbn [Vector3.x Vector3.y Vector3.z]. f_equal; field; lra.
Qed.

Lemma inward_unit (a : R) : Vector3.length (Vector3.mk (- cos a) 0 (- sin a)) = 1.
Proof.
  unfold Vector3.length. cbn [Vector3.x Vector3.y Vector3.z].
  replace (- cos a * - cos a + 0 * 0 + - sin a * - sin a)
    with (Rsqr (sin a) + Rsqr (cos a)) by (unfold Rsqr; ring).
  rewrite sin2_cos2. apply sqrt_1.
Qed.

Lemma normalize_of_scaled (n : vec) (c : R) :
  Vector3.length n = 1 -> 0 < c ->
  Vector3.normalize (Vector3.multiplyScalar n c) = n.
Proof.
  intros Hn Hc. unfold Vector3.normalize.
  rewrite length_multiplyScalar, Hn, Rabs_pos_eq, Rmult_1_r by lra.
  destruct (Req_dec_T c 0) as [E | _]; [lra |].
  unfold Vector3.divideScalar, Vector3.multiplyScalar. destruct n as [x y z].
  cbn [Vector3.x Vector3.y Vector3.z]. f_equal; field; lra.
Qed.

Lemma traceFieldLine_S (steps : nat) (m : vec) (k : R) (ty : string)
  (cur : vec) (line : list vec) :
  Physics.traceFieldLine (S steps) m k ty cur line
  = if Rlt_dec (Vector3.length (Physics.calculateMagneticForce m cur k ty))
         0.001
    then line
    else
      if Rgt_dec
           (Utils.distance m
              (Vector3.add cur
                 (Vector3.multiplyScalar
                    (Vector3.normalize
                       (Physics.calculateMagneticForce m cur k ty)) 0.1)))
           5
      then
        line
        ++ [Vector3.add cur
              (Vector3.multiplyScalar
                 (Vector3.normalize
                    (Physics.calculateMagneticForce m cur k ty)) 0.1)]
      else
        Physics.traceFieldLine steps m k ty
          (Vector3.add cur
             (Vector3.multiplyScalar
                (Vector3.normalize
                   (Physics.calculateMagneticForce m cur k ty)) 0.1))
          (line
           ++ [Vector3.add cur
                 (Vector3.multiplyScalar
                    (Vector3.normalize
                       (Physics.calculateMagneticForce m cur k ty)) 0.1)]).
Proof. reflexivity. Qed.

(** One step along a ray: 0.1 towards the magnet. *)
Lemma traceFieldLine_inward (steps : nat) (m : vec) (k : R) (ty : string)
  (a r : R) (line : list vec) :
  0.1 <= r <= 5 ->
  Physics.traceFieldLine (S steps) m k ty (onRay m a r) line
  = Physics.traceFieldLine steps m k ty (onRay m a (r - 0.1))
      (line ++ [onRay m a (r - 0.1)]).
Proof.
  intros Hr. rewrite traceFieldLine_S.
  destruct (calculateMagneticForce_far m (onRay m a r) k ty)
    as (c & [Hlo Hhi] & ->).
  { rewrite onRay_distance; lra. }
  unfold Physics.MIN_FORCE in Hlo.
  rewrite onRay_direction by lra.
  rewrite length_multiplyScalar, inward_unit, Rabs_pos_eq, Rmult_1_r by lra.
  destruct (Rlt_dec c 0.001) as [Hlt | _]; [lra |].
  rewrite normalize_of_scaled by (try apply inward_unit; lra).
  replace (Vector3.add (onRay m a r)
             (Vector3.multiplyScalar (Vector3.mk (- cos a) 0 (- sin a)) 0.1))
    with (onRay m a (r - 0.1))
    by (unfold onRay, Vector3.add, Vector3.multiplyScalar;
        cbn [Vector3.x Vector3.y Vector3.z]; f_equal; lra).
  rewrite onRay_distance by lra.
  destruct (Rgt_dec (r - 0.1) 5) as [Hgt | _]; [lra | reflexivity].
Qed.

(** Inside the singularity guard the line ends. *)
Lemma traceFieldLine_stop (steps : nat) (m : vec) (k : R) (ty : string)
  (cur : vec) (line : list vec) :
  Utils.distance m cur < 0.1 ->
  Physics.traceFieldLine steps m k ty cur line = line.
Proof.
  intros Hd. destruct steps as [| steps]; [reflexivity |].
  rewrite traceFieldLine_S. unfold Physics.calculateMagneticForce.
  destruct (Rlt_dec (Utils.distance m cur) 0.1) as [_ | Hn];
    [| contradiction].
  assert (L : Vector3.length (Vector3.mk 0 0 0) = 0).
  { unfold Vector3.length; simpl.
    replace (0 * 0 + 0 * 0 + 0 * 0) with 0 by ring. apply sqrt_0. }
  rewrite L. destruct (Rlt_dec 0 0.001) as [_ | Hn]; [reflexivity | lra].
Qed.

(** In exact arithmetic a field line is the start point and two steps of
    0.1 towards the magnet. *)
Lemma traceFieldLine_from_start (steps : nat) (m : vec) (k : R) (ty : string)
  (a : R) :
  Physics.traceFieldLine (S (S steps)) m k ty (onRay m a 0.2) [onRay m a 0.2]
  = [onRay m a 0.2; onRay m a 0.1; onRay m a 0].
Proof.
  rewrite traceFieldLine_inward by lra.
  replace (0.2 - 0.1) with 0.1 by lra.
  rewrite traceFieldLine_inward by lra.
  replace (0.1 - 0.1) with 0 by lra.
  rewrite traceFieldLine_stop; [reflexivity |].
  rewrite onRay_distance; lra.
Qed.

(** X29: the field lines never leave the magnet.  For a magnet within
    1000 of the origin, whatever its strength and type,
    [calculateFieldLines] returns 8 lines; each begins at its
    start point beside the magnet, has at most 3 points, and every point of
    it lies within 0.25 of the magnet: the force is attractive, so each
    line runs straight into the magnet and ends at the singularity
    guard. *)
Theorem calculateFieldLines_collapse :
  forall (magnetPos : vec) (magnetStrength : R) (magnetType : string),
    Vector3.length magnetPos <= 1000 ->
    let fieldLines :=
      Physics.calculateFieldLines magnetPos magnetStrength magnetType in
    List.length fieldLines = 8%nat
    /\ Forall
         (fun line =>
            (exists i : nat, hd_error line
                             = Some (Physics.fieldLineStart magnetPos i))
            /\ (List.length line <= 3)%nat
            /\ Forall (fun point => Utils.distance magnetPos point <= 0.25)
                 line)
         fieldLines.
Proof.
  intros m k ty _ fieldLines. unfold fieldLines, Physics.calculateFieldLines.
  split; [now rewrite length_map, length_seq |].
  apply Forall_forall. intros line Hline.
  apply in_map_iff in Hline as (i & <- & _).
  change (Vector3.clone (Physics.fieldLineStart m i))
    with (onRay m (INR i / 8 * PI * 2) 0.2).
  rewrite traceFieldLine_from_start.
  split; [exists i; reflexivity |]. split; [simpl; lia |].
  repeat constructor; rewrite onRay_distance; lra.
Qed.

Lemma calculateFieldLines_collapse_witness :
  Vector3.length (Magnet.position barMagnet) <= 1000
  /\ List.length
       (Physics.calculateFieldLines (Magnet.position barMagnet)
          (Magnet.strength barMagnet) (Magnet.type barMagnet)) = 8%nat.
Proof.
  assert (H : Vector3.length (Magnet.position barMagnet) <= 1000).
  { unfold Vector3.length; simpl.
    replace (0 * 0 + 0.5 * 0.5 + 0 * 0) with (0.5 * 0.5) by lra.
    rewrite sqrt_square; lra. }
  split; [exact H |].
  exact (proj1 (calculateFieldLines_collapse (Magnet.position barMagnet)
                  (Magnet.strength barMagnet) (Magnet.type barMagnet) H)).
Defined.

(** ** The life of a particle *)

Lemma handleGroundCollision_identity (p : particle) :
  identity (Physics.handleGroundCollision p) = identity p.
Proof.
  unfold Physics.handleGroundCollision.
  destruct Rle_dec; [destruct Rlt_dec |]; reflexivity.
Qed.

Lemma updateParticle_identity (p : particle) (ms : list Magnet.t) (dt : R) :
  identity (Physics.updateParticle p ms dt) = identity p.
Proof.
  rewrite updateParticle_stages.
  change (identity
            (Physics.handleGroundCollision
               (Stage.move (Stage.limit (Stage.accelerate p ms dt)) dt))
          = identity p).
  rewrite handleGroundCollision_identity.
  unfold Stage.move, Stage.limit. destruct Rgt_dec; reflexivity.
Qed.

Lemma checkMagnetInteraction_identity (p : particle) (ms : list Magnet.t) :
  identity (IronParticle.checkMagnetInteraction p ms) = identity p.
Proof.
  unfold IronParticle.checkMagnetInteraction.
  destruct (fold_left _ ms None) as [[d m] |]; [| reflexivity].
  repeat destruct Rlt_dec; reflexivity.
Qed.

Lemma checkGroundStick_identity (p : particle) :
  identity (IronParticle.checkGroundStick p) = identity p.
Proof.
  unfold IronParticle.checkGroundStick.
  destruct Rle_dec; [destruct Rlt_dec |]; reflexivity.
Qed.

(** X30: how a particle ages and dies.  [update] never changes the mass,
    the radius or the maximal age.  A dead particle is left as it is.  A
    live particle ages by the time step; it dies exactly when its new age
    exceeds a finite maximal age, and then it is not moved; with the
    constructor's infinite maximal age it stays alive. *)
Theorem update_lifecycle :
  forall (p : particle) (deltaTime : R) (magnets : list Magnet.t),
    let q := IronParticle.update p deltaTime magnets Physics.updateParticle in
    IronParticle.mass q = IronParticle.mass p
    /\ IronParticle.radius q = IronParticle.radius p
    /\ IronParticle.maxAge q = IronParticle.maxAge p
    /\ (IronParticle.isDead p = true -> q = p)
    /\ (IronParticle.isDead p = false ->
        IronParticle.age q = IronParticle.age p + deltaTime
        /\ (IronParticle.isDead q = true
            <-> exists limit : R,
                  IronParticle.maxAge p = Some limit
                  /\ IronParticle.age p + deltaTime > limit)
        /\ (IronParticle.isDead q = true ->
            IronParticle.position q = IronParticle.position p
            /\ IronParticle.velocity q = IronParticle.velocity p)).
Proof.
  intros p dt ms q. unfold q, IronParticle.update.
  destruct (IronParticle.isDead p) eqn:Hdead.
  { repeat split; congruence. }
  set (aged := IronParticle.with_age p (IronParticle.age p + dt)).
  assert (Hrun :
    identity
      (IronParticle.with_needsUpdate
         (IronParticle.checkGroundStick
            (IronParticle.checkMagnetInteraction
               (Physics.updateParticle aged ms dt) ms)) false)
    = identity aged).
  { transitivity
      (identity
         (IronParticle.checkGroundStick
            (IronParticle.checkMagnetInteraction
               (Physics.updateParticle aged ms dt) ms))); [reflexivity |].
    rewrite checkGroundStick_identity, checkMagnetInteraction_identity.
    apply updateParticle_identity. }
  unfold identity in Hrun. injection Hrun as Hm Hr Ha Hx Hd.
  set (ran := IronParticle.with_needsUpdate _ false) in *.
  assert (Hexp :
    IronParticle.expired aged
    = match IronParticle.maxAge p with
      | Some limit =>
          if Rgt_dec (IronParticle.age p + dt) limit then true else false
      | None => false
      end) by reflexivity.
  rewrite Hexp.
  change (IronParticle.maxAge aged) with (IronParticle.maxAge p) in Hx.
  change (IronParticle.age aged) with (IronParticle.age p + dt) in Ha.
  change (IronParticle.mass aged) with (IronParticle.mass p) in Hm.
  change (IronParticle.radius aged) with (IronParticle.radius p) in Hr.
  change (IronParticle.isDead aged) with (IronParticle.isDead p) in Hd.
  rewrite Hdead in Hd.
  assert (Hstay :
    IronParticle.mass ran = IronParticle.mass p
    /\ IronParticle.radius ran = IronParticle.radius p
    /\ IronParticle.maxAge ran = IronParticle.maxAge p
    /\ (false = true -> ran = p)
    /\ (false = false ->
        IronParticle.age ran = IronParticle.age p + dt
        /\ (IronParticle.isDead ran = true <-> False)
        /\ (IronParticle.isDead ran = true ->
            IronParticle.position ran = IronParticle.position p
            /\ IronParticle.velocity ran = IronParticle.velocity p))).
  { unfold ran.
    cbn [IronParticle.mass IronParticle.radius IronParticle.maxAge
         IronParticle.age IronParticle.isDead IronParticle.position
         IronParticle.velocity IronParticle.with_needsUpdate].
    rewrite Hd. repeat split; try assumption; try congruence; tauto. }
  destruct (IronParticle.maxAge p) as [limit |] eqn:Hlimit.
  - destruct (Rgt_dec (IronParticle.age p + dt) limit) as [Hold | Hyoung].
    + unfold IronParticle.kill, aged. cbn.
      rewrite Hlimit. repeat split; try congruence.
      exists limit. now split.
    + destruct Hstay as (H1 & H2 & H3 & H4 & H5).
      destruct (H5 eq_refl) as (H6 & H7 & H8).
      repeat split; try assumption; try congruence; try tauto.
      intros (l & E & Hgt). injection E as <-. contradiction.
  - destruct Hstay as (H1 & H2 & H3 & H4 & H5).
    destruct (H5 eq_refl) as (H6 & H7 & H8).
    repeat split; try assumption; try congruence; try tauto.
    intros (l & E & _). discriminate E.
Qed.
